(** * Social feed aggregator: the background service worker

    A shallow embedding of [src/chrome/js/background.js]: the in-memory
    feed ([unifiedFeed]), the tab registry ([monitoredTabs]), the message
    handler, the sort views and the debounced persistence, followed by
    the properties the specification states about them.

    Conventions of the embedding.
    - A JavaScript number that holds a count or a millisecond time stamp
      is an integer far below 2^53, so it is a [Z]; subtraction in a
      comparator is exact.  A property that may be absent ([undefined],
      [null]) is an [option].
    - Every handler of the worker runs to completion before the next one
      starts, so a handler is a function [State -> State]; what the host
      does between handlers (a timer firing, a storage read resolving,
      the worker being restarted) is an event of its own.
    - [Array.prototype.sort] is stable (ECMAScript 2019); on a comparator
      that comes from a key every stable sort returns the same array, and
      [js_sort] is the insertion sort that computes it.
    - A producer can put a text in [timestamp] (the Twitter producer
      sends the display text of the time).  A subtraction turns a text
      into a number or into NaN, and the sort reads a NaN that the
      comparator returns as 0.  The comparator is then no longer
      consistent and the language leaves the order of the result to the
      host, so the theorems on the order of a time view are stated for
      feeds whose time stamps are numbers or absent. *)

From Stdlib Require OrderedTypeEx.
From stdpp Require Import base numbers option list sorting gmap strings.

Open Scope Z_scope.

(** ** JavaScript helpers *)

(** [x || d] where [x] is a number or absent: [0] is falsy as well. *)
Definition js_or (x : option Z) (d : Z) : Z :=
  match x with
  | Some v => if v =? 0 then d else v
  | None => d
  end.

(** [s.includes(sub)] *)
Fixpoint includes (s sub : string) : bool :=
  String.prefix sub s ||
  match s with
  | EmptyString => false
  | String _ s' => includes s' sub
  end.

(** [a.localeCompare(b)], as a sign.  The platform names the producers
    send, [twitter], [bluesky] and [mastodon], are lower-case ASCII
    words, on which the order of the locale is the order of the code
    points, and that is the order computed here; on other texts (mixed
    case, accents) the host's collation can differ, and the theorem on
    the platform view is stated for these three names. *)
Definition localeCompare (a b : string) : Z :=
  match String.compare a b with
  | Lt => -1
  | Eq => 0
  | Gt => 1
  end.

Section Arrays.
Context {A : Type}.

(** [arr.findIndex(f)]; [None] stands for [-1]. *)
Fixpoint findIndex (f : A → bool) (l : list A) : option nat :=
  match l with
  | [] => None
  | x :: l' => if f x then Some 0%nat else S <$> findIndex f l'
  end.

(** One step of the stable sort: [x] stood before every element of
    [l] and moves right only past an element that must precede it,
    that is while [cmp x y > 0]. *)
Fixpoint js_insert (cmp : A → A → Z) (x : A) (l : list A) : list A :=
  match l with
  | [] => [x]
  | y :: l' => if 0 <? cmp x y then y :: js_insert cmp x l' else x :: l
  end.

(** [arr.sort(cmp)] *)
Fixpoint js_sort (cmp : A → A → Z) (l : list A) : list A :=
  match l with
  | [] => []
  | x :: l' => js_insert cmp x (js_sort cmp l')
  end.

(** The order of an array sorted by a key, largest first: [a] may
    stand before [b]. *)
Definition keyDesc (key : A → Z) (a b : A) : Prop := key b ≤ key a.
End Arrays.

(** *** Numerals and white space in a text

    A text is a byte string in UTF-8. *)

(** [\d] *)
Definition isDigit (c : Ascii.ascii) : bool :=
  ((48 <=? Ascii.nat_of_ascii c) && (Ascii.nat_of_ascii c <=? 57))%nat.

Definition digitValue (c : Ascii.ascii) : Z := Z.of_nat (Ascii.nat_of_ascii c) - 48.

(** [parseInt] of a run of decimal digits, after the digits read so far. *)
Fixpoint parseDigits (acc : Z) (s : string) : Z :=
  match s with
  | EmptyString => acc
  | String c r => parseDigits (10 * acc + digitValue c) r
  end.

(** The longest run of characters of a class at the start, and the rest. *)
Fixpoint spanChars (f : Ascii.ascii → bool) (s : string) : string * string :=
  match s with
  | EmptyString => (EmptyString, EmptyString)
  | String c r =>
      if f c then (String c (spanChars f r).1, (spanChars f r).2)
      else (EmptyString, s)
  end.

(** The white space of [\s]: the ASCII ones, then U+00A0 in two bytes,
    then U+1680, U+2000 to U+200A, U+2028, U+2029, U+202F, U+205F,
    U+3000 and U+FEFF in three. *)
Definition isSpace1 (a : Ascii.ascii) : bool :=
  let x := Ascii.nat_of_ascii a in
  ((9 <=? x) && (x <=? 13) || (x =? 32))%nat.

Definition isSpace2 (a b : Ascii.ascii) : bool :=
  ((Ascii.nat_of_ascii a =? 194) && (Ascii.nat_of_ascii b =? 160))%nat.

Definition isSpace3 (a b c : Ascii.ascii) : bool :=
  let x := Ascii.nat_of_ascii a in
  let y := Ascii.nat_of_ascii b in
  let z := Ascii.nat_of_ascii c in
  ((x =? 225) && (y =? 154) && (z =? 128) ||
   (x =? 226) && (y =? 128) &&
     ((128 <=? z) && (z <=? 138) || (z =? 168) || (z =? 169) || (z =? 175)) ||
   (x =? 226) && (y =? 129) && (z =? 159) ||
   (x =? 227) && (y =? 128) && (z =? 128) ||
   (x =? 239) && (y =? 187) && (z =? 191))%nat.

(** [\s*] at the start of [s]: what is left after it. *)
Fixpoint skipSpaces (s : string) : string :=
  match s with
  | EmptyString => s
  | String a r =>
      if isSpace1 a then skipSpaces r
      else
        match r with
        | EmptyString => s
        | String b r2 =>
            if isSpace2 a b then skipSpaces r2
            else
              match r2 with
              | EmptyString => s
              | String c r3 => if isSpace3 a b c then skipSpaces r3 else s
              end
        end
  end.

(** [Number(text)], the conversion a subtraction applies to a text;
    [None] is NaN.  White space around the numeral is skipped and a text
    of white space alone is 0.  Only a decimal integer with an optional
    sign is given its value: a text that spells any other number (a
    fraction, an exponent, a hexadecimal numeral, [Infinity]) has no
    value in [Z] and counts as NaN here. *)
Definition stringToNumber (s : string) : option Z :=
  match skipSpaces s with
  | EmptyString => Some 0
  | String c r =>
      let signed :=
        if (Ascii.nat_of_ascii c =? 45)%nat then (-1, r)
        else if (Ascii.nat_of_ascii c =? 43)%nat then (1, r)
        else (1, String c r) in
      let digits := (spanChars isDigit signed.2).1 in
      let rest := (spanChars isDigit signed.2).2 in
      if negb (String.eqb digits "") && String.eqb (skipSpaces rest) ""
      then Some (signed.1 * parseDigits 0 digits)
      else None
  end.

(** ** Data *)

(** The counters a producer may send; the sort view reads these six. *)
Record Engagement := mkEngagement {
  likes : option Z;
  retweets : option Z;
  reposts : option Z;
  boosts : option Z;
  favorites : option Z;
  replies : option Z
}.

(** What a producer puts in [timestamp]: a number of milliseconds, or a
    text (the Twitter producer can send the display text of the time,
    such as ["2h"]).  A NaN does not survive the message channel and
    arrives as an absent value. *)
Inductive TimeValue :=
  | TimeNumber (n : Z)
  | TimeText (text : string).

Global Instance TimeValue_eq_dec : EqDecision TimeValue.
Proof. solve_decision. Defined.

(** A post as the worker sees it.  [content] stands for the fields the
    worker only carries along (author, text, images, reposter, url). *)
Record Post := mkPost {
  id : string;
  platform : string;
  content : string;
  timestamp : option TimeValue;
  scrapedAt : Z;
  engagement : option Engagement;
  sourceTabId : option Z
}.

Global Instance Engagement_eq_dec : EqDecision Engagement.
Proof. solve_decision. Defined.

Global Instance Post_eq_dec : EqDecision Post.
Proof. solve_decision. Defined.

(** [postData.sourceTabId = tabId] *)
Definition setSourceTabId (postData : Post) (tabId : option Z) : Post :=
  {| id := id postData;
     platform := platform postData;
     content := content postData;
     timestamp := timestamp postData;
     scrapedAt := scrapedAt postData;
     engagement := engagement postData;
     sourceTabId := tabId |}.

(** A browser tab as the tab events deliver it. *)
Record Tab := mkTab {
  tab_id : option Z;
  tab_url : option string
}.

(** The value kept per monitored tab. *)
Record TabInfo := mkTabInfo {
  info_url : string;
  info_platform : string;
  lastUpdate : Z
}.

(** What [notifyPopup] sends. *)
Inductive Notification :=
  | FEED_UPDATED (newPost : Post)
  | FEED_CLEARED.

Global Instance Notification_eq_dec : EqDecision Notification.
Proof. solve_decision. Defined.

(** The worker: its two globals, the debounce timer, the storage key
    [unifiedFeed] of [chrome.storage.local] ([None] while it was never
    written), whether the start-up read of that key is still in flight,
    and the log of the notifications sent so far (oldest first). *)
Record State := mkState {
  unifiedFeed : list Post;
  monitoredTabs : gmap Z TabInfo;
  saveTimeout : bool;
  storage : option (list Post);
  loadPending : bool;
  outbox : list Notification
}.

Definition MAX_FEED_SIZE : nat := 500.

Definition setFeed (feed : list Post) (s : State) : State :=
  {| unifiedFeed := feed;
     monitoredTabs := monitoredTabs s;
     saveTimeout := saveTimeout s;
     storage := storage s;
     loadPending := loadPending s;
     outbox := outbox s |}.

Definition setTabs (tabs : gmap Z TabInfo) (s : State) : State :=
  {| unifiedFeed := unifiedFeed s;
     monitoredTabs := tabs;
     saveTimeout := saveTimeout s;
     storage := storage s;
     loadPending := loadPending s;
     outbox := outbox s |}.

Definition setStorage (st : option (list Post)) (s : State) : State :=
  {| unifiedFeed := unifiedFeed s;
     monitoredTabs := monitoredTabs s;
     saveTimeout := saveTimeout s;
     storage := st;
     loadPending := loadPending s;
     outbox := outbox s |}.

Definition setLoadPending (b : bool) (s : State) : State :=
  {| unifiedFeed := unifiedFeed s;
     monitoredTabs := monitoredTabs s;
     saveTimeout := saveTimeout s;
     storage := storage s;
     loadPending := b;
     outbox := outbox s |}.

(** ** The handlers *)

(** [notifyPopup(type, data)] *)
Definition notifyPopup (n : Notification) (s : State) : State :=
  {| unifiedFeed := unifiedFeed s;
     monitoredTabs := monitoredTabs s;
     saveTimeout := saveTimeout s;
     storage := storage s;
     loadPending := loadPending s;
     outbox := outbox s ++ [n] |}.

(** [saveFeedToStorage()]: clears the timer and arms it again. *)
Definition saveFeedToStorage (s : State) : State :=
  {| unifiedFeed := unifiedFeed s;
     monitoredTabs := monitoredTabs s;
     saveTimeout := true;
     storage := storage s;
     loadPending := loadPending s;
     outbox := outbox s |}.

(** [getPlatform(url)] *)
Definition getPlatform (url : string) : string :=
  if includes url "twitter.com" || includes url "x.com" then "twitter"
  else if includes url "bsky.app" then "bluesky"
  else if includes url "mastodon" || includes url "fosstodon" ||
          includes url "hachyderm" ||
          includes url ".social" || includes url ".exchange"
       then "mastodon"
  else "unknown".

(** [monitorTab(tab)]; [now] is [Date.now()]. *)
Definition monitorTab (tab : Tab) (now : Z) (s : State) : State :=
  match tab_id tab, tab_url tab with
  | Some i, Some u =>
      if (i =? 0) || String.eqb u "" then s
      else setTabs (<[i := {| info_url := u;
                              info_platform := getPlatform u;
                              lastUpdate := now |}]> (monitoredTabs s)) s
  | _, _ => s
  end.

(** [cleanupTabPosts(tabId)] *)
Definition cleanupTabPosts (tabId : Z) (s : State) : State :=
  saveFeedToStorage
    (setFeed (filter (λ post, sourceTabId post ≠ Some tabId) (unifiedFeed s)) s).

(** [unmonitorTab(tabId)] *)
Definition unmonitorTab (tabId : Z) (s : State) : State :=
  match monitoredTabs s !! tabId with
  | Some _ => cleanupTabPosts tabId (setTabs (delete tabId (monitoredTabs s)) s)
  | None => s
  end.

(** The comparator of the trim: [(a, b) => b.scrapedAt - a.scrapedAt]. *)
Definition byScrapedAtDesc (a b : Post) : Z := scrapedAt b - scrapedAt a.

(** Lines 144-156 of [handleNewPost] on the array alone: replace the
    entry with this id where it stands, or push. *)
Definition upsertFeed (postData : Post) (feed : list Post) : list Post :=
  match findIndex (λ p, String.eqb (id p) (id postData)) feed with
  | Some existingIndex => <[existingIndex := postData]> feed
  | None => feed ++ [postData]
  end.

(** Lines 158-162: the trim. *)
Definition trimFeed (feed : list Post) : list Post :=
  if (MAX_FEED_SIZE <? length feed)%nat
  then take MAX_FEED_SIZE (js_sort byScrapedAtDesc feed)
  else feed.

(** [handleNewPost(postData, tabId)] *)
Definition handleNewPost (postData : Post) (tabId : option Z) (s : State) : State :=
  let postData := setSourceTabId postData tabId in
  let s1 :=
    match findIndex (λ p, String.eqb (id p) (id postData)) (unifiedFeed s) with
    | Some existingIndex =>
        setFeed (<[existingIndex := postData]> (unifiedFeed s)) s
    | None =>
        notifyPopup (FEED_UPDATED postData)
          (setFeed (unifiedFeed s ++ [postData]) s)
    end in
  saveFeedToStorage (setFeed (trimFeed (unifiedFeed s1)) s1).

(** Whether [||] keeps a time value: not the number 0, not the empty
    text. *)
Definition timeTruthy (v : TimeValue) : bool :=
  match v with
  | TimeNumber n => negb (n =? 0)
  | TimeText text => negb (String.eqb text "")
  end.

(** [a.timestamp || a.scrapedAt] *)
Definition timeOf (a : Post) : TimeValue :=
  match timestamp a with
  | Some v => if timeTruthy v then v else TimeNumber (scrapedAt a)
  | None => TimeNumber (scrapedAt a)
  end.

(** The number a subtraction makes of a time value; [None] is NaN. *)
Definition toNumber (v : TimeValue) : option Z :=
  match v with
  | TimeNumber n => Some n
  | TimeText text => stringToNumber text
  end.

(** [x - y] as the value a comparator returns to the sort, which reads a
    NaN as 0. *)
Definition timeDiff (x y : TimeValue) : Z :=
  match toNumber x, toNumber y with
  | Some n, Some m => n - m
  | _, _ => 0
  end.

(** The sum the engagement view compares. *)
Definition engagementOf (a : Post) : Z :=
  js_or (engagement a ≫= likes) 0 +
  js_or (engagement a ≫= retweets) 0 +
  js_or (engagement a ≫= reposts) 0 +
  js_or (engagement a ≫= boosts) 0 +
  js_or (engagement a ≫= favorites) 0 +
  js_or (engagement a ≫= replies) 0.

Definition byTimeDesc (a b : Post) : Z := timeDiff (timeOf b) (timeOf a).
Definition byTimeAsc (a b : Post) : Z := timeDiff (timeOf a) (timeOf b).
Definition byEngagementDesc (a b : Post) : Z := engagementOf b - engagementOf a.
Definition byPlatform (a b : Post) : Z :=
  if negb (String.eqb (platform a) (platform b))
  then localeCompare (platform a) (platform b)
  else timeDiff (timeOf b) (timeOf a).

(** [getSortedFeed(sortBy)]; [None] is a call without the argument (or
    with [undefined]), for which the default parameter applies.  It sorts
    a copy, so it returns a list and no state. *)
Definition getSortedFeed (sortBy : option string) (s : State) : list Post :=
  let sortBy := default "chronological"%string sortBy in
  let sorted := unifiedFeed s in
  if String.eqb sortBy "chronological" then js_sort byTimeDesc sorted
  else if String.eqb sortBy "chronological-old" then js_sort byTimeAsc sorted
  else if String.eqb sortBy "engagement" then js_sort byEngagementDesc sorted
  else if String.eqb sortBy "platform" then js_sort byPlatform sorted
  else sorted.

(** [clearFeed()] *)
Definition clearFeed (s : State) : State :=
  notifyPopup FEED_CLEARED (setStorage (Some []) (setFeed [] s)).

(** The messages of the router and what [sendResponse] receives. *)
Inductive Message :=
  | NEW_POST (data : Post)
  | GET_FEED (sortBy : option string)
  | OPEN_POST (url : string)
  | REFRESH_FEED
  | CLEAR_FEED
  | OTHER.

Inductive Response :=
  | RSuccess
  | RFeed (feed : list Post)
  | RNone.

(** The [chrome.runtime.onMessage] listener; [senderTab] is
    [sender.tab?.id].  Opening a tab and asking the tabs to rescan leave
    the worker's state alone. *)
Definition onMessage (message : Message) (senderTab : option Z) (s : State)
  : State * Response :=
  match message with
  | NEW_POST data => (handleNewPost data senderTab s, RSuccess)
  | GET_FEED sortBy => (s, RFeed (getSortedFeed sortBy s))
  | OPEN_POST _ => (s, RSuccess)
  | REFRESH_FEED => (s, RSuccess)
  | CLEAR_FEED => (clearFeed s, RSuccess)
  | OTHER => (s, RNone)
  end.

(** ** The worker as a transition system *)

(** What can happen to the worker.  [EvMonitor] and [EvUnmonitor] are the
    calls the tab listeners make once they have classified the URL. *)
Inductive Event :=
  | EvMessage (message : Message) (senderTab : option Z)
  | EvMonitor (tab : Tab) (now : Z)
  | EvUnmonitor (tabId : Z)
  | EvActivated (tabId : Z) (now : Z)
  | EvInstalled
  | EvSaveTimer
  | EvLoadResolved
  | EvRestart.

(** The state once the script has been evaluated: empty globals, no
    timer, and [loadFeedFromStorage()] called but not yet resolved. *)
Definition startState (st : option (list Post)) (log : list Notification) : State :=
  {| unifiedFeed := [];
     monitoredTabs := ∅;
     saveTimeout := false;
     storage := st;
     loadPending := true;
     outbox := log |}.

(** The first start of the extension: nothing was ever stored. *)
Definition coldStart : State := startState None [].

(** The continuation of [loadFeedFromStorage] after its [await]. *)
Definition loadResolved (s : State) : State :=
  if loadPending s
  then setLoadPending false
         (match storage s with
          | Some feed => setFeed feed s
          | None => s
          end)
  else s.

(** The timer callback of [saveFeedToStorage]. *)
Definition saveTimerFired (s : State) : State :=
  if saveTimeout s
  then {| unifiedFeed := unifiedFeed s;
          monitoredTabs := monitoredTabs s;
          saveTimeout := false;
          storage := Some (unifiedFeed s);
          loadPending := loadPending s;
          outbox := outbox s |}
  else s.

(** The [onActivated] listener. *)
Definition tabActivated (tabId : Z) (now : Z) (s : State) : State :=
  match monitoredTabs s !! tabId with
  | Some info =>
      setTabs (<[tabId := {| info_url := info_url info;
                             info_platform := info_platform info;
                             lastUpdate := now |}]> (monitoredTabs s)) s
  | None => s
  end.

Definition step (s : State) (e : Event) : State :=
  match e with
  | EvMessage message senderTab => (onMessage message senderTab s).1
  | EvMonitor tab now => monitorTab tab now s
  | EvUnmonitor tabId => unmonitorTab tabId s
  | EvActivated tabId now => tabActivated tabId now s
  | EvInstalled => setStorage (Some []) s
  | EvSaveTimer => saveTimerFired s
  | EvLoadResolved => loadResolved s
  | EvRestart => startState (storage s) (outbox s)
  end.

Definition run (events : list Event) (s : State) : State :=
  foldl step s events.

Definition reachable (s : State) : Prop :=
  ∃ events, s = run events coldStart.

(** ** Invariant, the specification's words, sample data *)

(** A feed is well formed when it is within capacity and no id occurs
    twice. *)
Definition feedOk (feed : list Post) : Prop :=
  (length feed ≤ MAX_FEED_SIZE)%nat ∧ NoDup (id <$> feed).

(** The invariant of the worker: the feed in memory and the feed in
    storage are both well formed. *)
Definition invariant (s : State) : Prop :=
  feedOk (unifiedFeed s) ∧ ∀ feed, storage s = Some feed → feedOk feed.

Definition sameId (postData : Post) : Post → bool :=
  λ p, String.eqb (id p) (id postData).

(** A three digit decimal id, ["000"] to ["999"]. *)
Definition idOfNat (n : nat) : string :=
  let digit d := Ascii.ascii_of_nat (d + 48) in
  String (digit (n / 100 mod 10)%nat)
    (String (digit (n / 10 mod 10)%nat)
      (String (digit (n mod 10)%nat) EmptyString)).

(** The [n]-th post of a scrape: scraped at time [1000 + n]. *)
Definition samplePost (n : nat) : Post :=
  {| id := idOfNat n;
     platform := "twitter";
     content := "";
     timestamp := None;
     scrapedAt := 1000 + Z.of_nat n;
     engagement := None;
     sourceTabId := None |}.

(** Tab 1 announces [n] posts. *)
Definition scrapeEvents (n : nat) : list Event :=
  (λ k, EvMessage (NEW_POST (samplePost k)) (Some 1)) <$> seq 0 n.

(** The worker after tab 1 filled the feed to capacity. *)
Definition fullState : State := run (scrapeEvents MAX_FEED_SIZE) coldStart.

(** A post older than everything in [fullState]. *)
Definition stalePost : Post :=
  {| id := "stale";
     platform := "bluesky";
     content := "";
     timestamp := Some (TimeNumber 9999);
     scrapedAt := 5;
     engagement := None;
     sourceTabId := None |}.

(** Post ["001"] seen again with a like. *)
Definition likedPost : Post :=
  {| id := "001";
     platform := "twitter";
     content := "";
     timestamp := None;
     scrapedAt := 2000;
     engagement := Some {| likes := Some 1; retweets := Some 0; reposts := None;
                           boosts := None; favorites := None; replies := Some 0 |};
     sourceTabId := None |}.

(** Tabs 1 and 2 are monitored and each announced three posts. *)
Definition twoTabs : State :=
  run ([EvMonitor {| tab_id := Some 1; tab_url := Some "https://x.com/home" |} 10;
        EvMonitor {| tab_id := Some 2; tab_url := Some "https://bsky.app/" |} 11]
       ++ scrapeEvents 3
       ++ ((λ k, EvMessage (NEW_POST (samplePost k)) (Some 2)) <$> seq 3 3))
      coldStart.

(** A record without an id. *)
Definition namelessPost : Post :=
  {| id := "";
     platform := "mastodon";
     content := "hello";
     timestamp := Some (TimeNumber 1700000000000);
     scrapedAt := 1700000001000;
     engagement := None;
     sourceTabId := None |}.

(** The shape the specification asks of a stored engagement: the three
    counters replies, reposts and likes, each a number, and no other. *)
Definition canonicalEngagement (e : Engagement) : Prop :=
  is_Some (replies e) ∧ is_Some (reposts e) ∧ is_Some (likes e) ∧
  retweets e = None ∧ boosts e = None ∧ favorites e = None.

(** A toot as the Mastodon producer sends it. *)
Definition tootPost : Post :=
  {| id := "111";
     platform := "mastodon";
     content := "toot";
     timestamp := Some (TimeNumber 1700000000000);
     scrapedAt := 1700000001000;
     engagement := Some {| likes := None; retweets := None; reposts := None;
                           boosts := Some 2; favorites := Some 3; replies := Some 1 |};
     sourceTabId := None |}.

(** Three posts with 10, 5 and 20 likes. *)
Definition likesPost (n : nat) (k : Z) : Post :=
  {| id := idOfNat n;
     platform := "twitter";
     content := "";
     timestamp := None;
     scrapedAt := 1000 + Z.of_nat n;
     engagement := Some {| likes := Some k; retweets := Some 0; reposts := None;
                           boosts := None; favorites := None; replies := Some 0 |};
     sourceTabId := None |}.

Definition likesState : State :=
  run [EvMessage (NEW_POST (likesPost 0 10)) (Some 1);
       EvMessage (NEW_POST (likesPost 1 5)) (Some 1);
       EvMessage (NEW_POST (likesPost 2 20)) (Some 1)] coldStart.

(** The record carries a number as time stamp, or none. *)
Definition numericTime (a : Post) : Prop :=
  match timestamp a with
  | Some (TimeText _) => False
  | _ => True
  end.

Global Instance numericTime_dec (a : Post) : Decision (numericTime a).
Proof. unfold numericTime. destruct (timestamp a) as [[]|]; apply _. Defined.

(** The key of the time views as a number (a NaN reads 0). *)
Definition timeKey (a : Post) : Z := default 0 (toNumber (timeOf a)).

(** The comparator of the platform view on the numeric key. *)
Definition byPlatformKey (a b : Post) : Z :=
  if negb (String.eqb (platform a) (platform b))
  then localeCompare (platform a) (platform b)
  else timeKey b - timeKey a.

(** The key as the specification words it, [timestamp ?? scrapedAt]: the
    scrape time only when there is no time stamp at all. *)
Definition nullishTimeOf (a : Post) : Z :=
  match timestamp a with
  | Some v => default 0 (toNumber v)
  | None => scrapedAt a
  end.

(** A post whose time stamp is zero, and one stamped 50. *)
Definition epochPost : Post :=
  {| id := "epoch";
     platform := "twitter";
     content := "";
     timestamp := Some (TimeNumber 0);
     scrapedAt := 100;
     engagement := None;
     sourceTabId := None |}.

Definition earlyPost : Post :=
  {| id := "early";
     platform := "twitter";
     content := "";
     timestamp := Some (TimeNumber 50);
     scrapedAt := 10;
     engagement := None;
     sourceTabId := None |}.

Definition epochState : State :=
  run [EvMessage (NEW_POST earlyPost) (Some 1);
       EvMessage (NEW_POST epochPost) (Some 1)] coldStart.

(** The worker after it stored one post and was restarted: the post is
    in storage, the feed in memory is empty, the load is in flight. *)
Definition restarted : State :=
  run [EvMessage (NEW_POST (samplePost 0)) (Some 1); EvSaveTimer; EvRestart] coldStart.

(** [twoTabs] after its feed was written to storage and the worker was
    restarted and has read it back: the six posts are in the feed again,
    the registry is empty. *)
Definition restoredTwoTabs : State :=
  run [EvSaveTimer; EvRestart; EvLoadResolved] twoTabs.

(** A post as the Bluesky producer sends it. *)
Definition skeetPost : Post :=
  {| id := "at://post/1";
     platform := "bluesky";
     content := "skeet";
     timestamp := Some (TimeNumber 1600000000000);
     scrapedAt := 1700000002000;
     engagement := None;
     sourceTabId := None |}.

(** A feed of the three platforms: two posts of Twitter from tab 1, with
    a toot from tab 2 and a post of Bluesky from tab 3 in between. *)
Definition mixedState : State :=
  run [EvMessage (NEW_POST (samplePost 0)) (Some 1);
       EvMessage (NEW_POST tootPost) (Some 2);
       EvMessage (NEW_POST skeetPost) (Some 3);
       EvMessage (NEW_POST (samplePost 1)) (Some 1)] coldStart.

(** ** Tab classification and the tab listeners *)

(** [s] without the prefix [p], when it has it. *)
Fixpoint stripPrefix (p s : string) : option string :=
  match p with
  | EmptyString => Some s
  | String a p' =>
      match s with
      | EmptyString => None
      | String b s' => if Ascii.eqb a b then stripPrefix p' s' else None
      end
  end.

(** A pattern that is anchored at its start matches somewhere in [s]. *)
Fixpoint matchesAnywhere (m : string → bool) (s : string) : bool :=
  m s ||
  match s with
  | EmptyString => false
  | String _ s' => matchesAnywhere m s'
  end.

(** The character [/]. *)
Definition slash : Ascii.ascii := Ascii.ascii_of_nat 47.

(** [[^\/]+\.(social|exchange)] at the start of [s]; [seen] tells that
    the run of characters other than [/] is not empty so far. *)
Fixpoint hostThenTld (seen : bool) (s : string) : bool :=
  (seen && (String.prefix ".social" s || String.prefix ".exchange" s)) ||
  match s with
  | EmptyString => false
  | String c s' => if Ascii.eqb c slash then false else hostThenTld true s'
  end.

(** [https?:\/\/[^\/]+\.(social|exchange)] at the start of [s]. *)
Definition socialHostAt (s : string) : bool :=
  match stripPrefix "http" s with
  | Some r =>
      match stripPrefix "s://" r with
      | Some h => hostThenTld false h
      | None => false
      end ||
      match stripPrefix "://" r with
      | Some h => hostThenTld false h
      | None => false
      end
  | None => false
  end.

(** [\w] *)
Definition isWordChar (c : Ascii.ascii) : bool :=
  let n := Ascii.nat_of_ascii c in
  ((48 <=? n) && (n <=? 57) || (65 <=? n) && (n <=? 90) ||
   (97 <=? n) && (n <=? 122) || (n =? 95))%nat.

Fixpoint allWordChars (s : string) : bool :=
  match s with
  | EmptyString => true
  | String c s' => isWordChar c && allWordChars s'
  end.

(** [\/@[\w]+$] at the start of [s]. *)
Definition handleToEndAt (s : string) : bool :=
  match stripPrefix "/@" s with
  | Some w => negb (String.eqb w "") && allWordChars w
  | None => false
  end.

(** [isSocialMediaTab(url)]; [None] is a tab whose URL the host does not
    disclose. *)
Definition isSocialMediaTab (url : option string) : bool :=
  match url with
  | None => false
  | Some url =>
      if String.eqb url "" then false
      else
        let isTwitter := includes url "twitter.com" || includes url "x.com" in
        let isBlueSky := includes url "bsky.app" in
        let isMastodon :=
          includes url "mastodon" || includes url "fosstodon" ||
          includes url "hachyderm" || matchesAnywhere socialHostAt url in
        if negb isTwitter && negb isBlueSky && negb isMastodon then false
        else if includes url "/profile" || includes url "/status" ||
                includes url "/post/" || includes url "/trending/" ||
                includes url "/search" then false
        else if isMastodon && matchesAnywhere handleToEndAt url then false
        else true
  end.

(** The [changeInfo] of [chrome.tabs.onUpdated]. *)
Record ChangeInfo := mkChangeInfo {
  ci_status : option string;
  ci_url : option string
}.

(** The [onUpdated] listener. *)
Definition onUpdated (tabId : Z) (changeInfo : ChangeInfo) (tab : Tab) (now : Z)
    (s : State) : State :=
  if bool_decide (ci_status changeInfo = Some "complete"%string)
     && isSocialMediaTab (tab_url tab)
  then monitorTab tab now s
  else
    match ci_url changeInfo with
    | Some url =>
        if negb (String.eqb url "") && negb (isSocialMediaTab (Some url))
        then unmonitorTab tabId s
        else s
    | None => s
    end.

(** The two [onRemoved] listeners, in the order they were added; the
    second also forgets the feed tab, which is not part of [State]. *)
Definition onRemoved (tabId : Z) (s : State) : State :=
  unmonitorTab tabId (unmonitorTab tabId s).

(** The [onCreated] listener. *)
Definition onCreated (tab : Tab) (now : Z) (s : State) : State :=
  if isSocialMediaTab (tab_url tab) then monitorTab tab now s else s.

(** The loop of [scanExistingTabs] over the tabs the query returned, each
    with the time at which it is reached. *)
Definition scanExistingTabs (tabs : list (Tab * Z)) (s : State) : State :=
  foldl (λ s '(tab, now), if isSocialMediaTab (tab_url tab)
                          then monitorTab tab now s else s) s tabs.

(** What the host delivers to the worker, listener by listener. *)
Inductive HostEvent :=
  | HMessage (message : Message) (senderTab : option Z)
  | HTabUpdated (tabId : Z) (changeInfo : ChangeInfo) (tab : Tab) (now : Z)
  | HTabRemoved (tabId : Z)
  | HTabCreated (tab : Tab) (now : Z)
  | HTabActivated (tabId : Z) (now : Z)
  | HInstalled
  | HTabsQueried (tabs : list (Tab * Z))
  | HSaveTimer
  | HLoadResolved
  | HRestart.

Definition hostStep (s : State) (e : HostEvent) : State :=
  match e with
  | HMessage message senderTab => (onMessage message senderTab s).1
  | HTabUpdated tabId changeInfo tab now => onUpdated tabId changeInfo tab now s
  | HTabRemoved tabId => onRemoved tabId s
  | HTabCreated tab now => onCreated tab now s
  | HTabActivated tabId now => tabActivated tabId now s
  | HInstalled => setStorage (Some []) s
  | HTabsQueried tabs => scanExistingTabs tabs s
  | HSaveTimer => saveTimerFired s
  | HLoadResolved => loadResolved s
  | HRestart => startState (storage s) (outbox s)
  end.

Definition hostRun (events : list HostEvent) (s : State) : State :=
  foldl hostStep s events.

Definition hostReachable (s : State) : Prop :=
  ∃ events, s = hostRun events coldStart.

(** The three platforms [getPlatform] names. *)
Definition knownPlatform (p : string) : Prop :=
  p = "twitter"%string ∨ p = "bluesky"%string ∨ p = "mastodon"%string.

(** What holds of every entry of the registry. *)
Definition tabEntryOk (tabId : Z) (info : TabInfo) : Prop :=
  tabId ≠ 0 ∧ info_url info ≠ ""%string ∧
  info_platform info = getPlatform (info_url info).

(** The order of the platform view: by platform name first, newest
    first within a platform. *)
Definition platformOrder (a b : Post) : Prop := byPlatformKey a b ≤ 0.

(** The posts of one platform. *)
Definition ofPlatform (p : string) (feed : list Post) : list Post :=
  filter (λ a, platform a = p) feed.

(** A tab of the host and a few URLs. *)
Definition homeTab (i : Z) (url : string) : Tab :=
  {| tab_id := Some i; tab_url := Some url |}.

(** The order a comparator asks for: [a] may stand before [b]. *)
Definition cmpOrder {A : Type} (cmp : A → A → Z) (a b : A) : Prop := cmp a b ≤ 0.

(** A burst of announcements, each with its sender. *)
Definition ingestEvents (posts : list (Post * option Z)) : list Event :=
  (λ '(postData, tabId), EvMessage (NEW_POST postData) tabId) <$> posts.

(** The ids the log of notifications has announced. *)
Definition announcedIds (log : list Notification) : list string :=
  omap (λ n, match n with
             | FEED_UPDATED newPost => Some (id newPost)
             | FEED_CLEARED => None
             end) log.

(** Every id of the feed, in memory or in storage, has been announced. *)
Definition allAnnounced (s : State) : Prop :=
  (∀ p, p ∈ unifiedFeed s → id p ∈ announcedIds (outbox s)) ∧
  (∀ feed p, storage s = Some feed → p ∈ feed → id p ∈ announcedIds (outbox s)).

(** Every entry of the registry is well formed. *)
Definition registryOk (s : State) : Prop :=
  ∀ tabId info, monitoredTabs s !! tabId = Some info → tabEntryOk tabId info.

(** Every entry of the registry is a page the classifier accepts. *)
Definition registryClassified (s : State) : Prop :=
  ∀ tabId info, monitoredTabs s !! tabId = Some info →
    isSocialMediaTab (Some (info_url info)) = true.

(** ** The parsers of the producers and the time label of the feed page

    Strings are byte strings in UTF-8.  The patterns below start with an
    ASCII character, so a match never starts inside a character of
    several bytes, and a search over the bytes finds what the search
    over the characters finds. *)

(** The alternatives of the unit group, in the order of the pattern. *)
Definition timeUnits : list string :=
  ["s"; "sec"; "second"; "m"; "min"; "minute"; "h"; "hour"; "d"; "day";
   "w"; "week"; "mo"; "month"; "y"; "year"]%string.

(** An alternation at the end of a pattern takes the first alternative
    that matches. *)
Fixpoint firstAlternative (alts : list string) (s : string) : option string :=
  match alts with
  | [] => None
  | u :: alts' => if String.prefix u s then Some u else firstAlternative alts' s
  end.

(** [(\d+)\s*(s|sec|...|year)] at the start of [s]: the two groups.  The
    digits and the white space are taken as long as they go; giving
    some back cannot help, for what follows them then is a digit or a
    white space and no unit. *)
Definition relativeMatchAt (s : string) : option (string * string) :=
  match s with
  | EmptyString => None
  | String c _ =>
      if isDigit c
      then (λ unit, ((spanChars isDigit s).1, unit))
             <$> firstAlternative timeUnits (skipSpaces (spanChars isDigit s).2)
      else None
  end.

(** The first match of the pattern in [s]. *)
Fixpoint relativeMatch (s : string) : option (string * string) :=
  match relativeMatchAt s with
  | Some m => Some m
  | None =>
      match s with
      | EmptyString => None
      | String _ r => relativeMatch r
      end
  end.

(** The [switch] on [unit[0]]. *)
Definition unitMilliseconds (unit : string) (value : Z) : Z :=
  match unit with
  | EmptyString => 0
  | String c _ =>
      let u0 := String c EmptyString in
      if String.eqb u0 "s" then value * 1000
      else if String.eqb u0 "m" then
        if String.eqb unit "mo" || String.eqb unit "month"
        then value * 30 * 24 * 60 * 60 * 1000
        else value * 60 * 1000
      else if String.eqb u0 "h" then value * 60 * 60 * 1000
      else if String.eqb u0 "d" then value * 24 * 60 * 60 * 1000
      else if String.eqb u0 "w" then value * 7 * 24 * 60 * 60 * 1000
      else if String.eqb u0 "y" then value * 365 * 24 * 60 * 60 * 1000
      else 0
  end.

Section RelativeTime.
(** The two string methods of the host. *)
Variables toLowerCase trim : string → string.

(** [parseRelativeTime(timeString)]; [now] is [Date.now()]. *)
Definition parseRelativeTime (timeString : option string) (now : Z) : Z :=
  match timeString with
  | None => now
  | Some timeString =>
      if String.eqb timeString "" then now
      else
        let lowerTime := trim (toLowerCase timeString) in
        match relativeMatch lowerTime with
        | None => now
        | Some (digits, unit) => now - unitMilliseconds unit (parseDigits 0 digits)
        end
  end.
End RelativeTime.

(** [,] or a digit: the class [[\d,]]. *)
Definition isDigitOrComma (c : Ascii.ascii) : bool :=
  isDigit c || (Ascii.nat_of_ascii c =? 44)%nat.

(** [replace(/,/g, '')] *)
Fixpoint removeCommas (s : string) : string :=
  match s with
  | EmptyString => EmptyString
  | String c r =>
      if (Ascii.nat_of_ascii c =? 44)%nat then removeCommas r
      else String c (removeCommas r)
  end.

(** [extractCountFromAriaLabel(ariaLabel)]; the pattern asks, at the
    start of the label, for a digit and then for digits and commas as
    long as they go. *)
Definition extractCountFromAriaLabel (ariaLabel : option string) : Z :=
  match ariaLabel with
  | None => 0
  | Some EmptyString => 0
  | Some (String c r) =>
      if isDigit c
      then parseDigits 0 (removeCommas (spanChars isDigitOrComma (String c r)).1)
      else 0
  end.

(** What [formatTimestamp] shows. *)
Inductive TimeLabel :=
  | JustNow
  | MinutesAgo (minutes : Z)
  | HoursAgo (hours : Z)
  | DaysAgo (days : Z)
  | LocaleDate (date : Z).

(** [formatTimestamp(timestamp)]; [now] is [new Date()].  [Math.floor]
    of a quotient is [/] on [Z]. *)
Definition formatTimestamp (timestamp now : Z) : TimeLabel :=
  let diff := now - timestamp in
  let seconds := diff / 1000 in
  let minutes := seconds / 60 in
  let hours := minutes / 60 in
  let days := hours / 24 in
  if seconds <? 60 then JustNow
  else if minutes <? 60 then MinutesAgo minutes
  else if hours <? 24 then HoursAgo hours
  else if days <? 7 then DaysAgo days
  else LocaleDate timestamp.

(** A string of decimal digits. *)
Fixpoint allDigits (s : string) : bool :=
  match s with
  | EmptyString => true
  | String c r => isDigit c && allDigits r
  end.

(** ** Facts about the array helpers *)

Section FindIndex.
Context {A : Type} (f : A → bool).

Lemma findIndex_None (l : list A) :
  findIndex f l = None ↔ Forall (λ x, f x = false) l.
Proof.
  induction l as [|x l IH]; simpl.
  - split; [constructor | done].
  - destruct (f x) eqn:Hx.
    + split; [done |]. intros H. inversion H. congruence.
    + rewrite fmap_None, IH. split.
      * intros. by constructor.
      * intros H. by inversion H.
Qed.

Lemma findIndex_Some (l : list A) (i : nat) :
  findIndex f l = Some i →
  ∃ x, l !! i = Some x ∧ f x = true ∧
       ∀ j y, (j < i)%nat → l !! j = Some y → f y = false.
Proof.
  revert i. induction l as [|x l IH]; intros i; simpl; [done |].
  destruct (f x) eqn:Hx.
  - intros [= <-]. exists x. split_and!; [done | done | lia].
  - intros H. apply fmap_Some in H as (i' & Hi' & ->).
    destruct (IH _ Hi') as (y & Hy & Hfy & Hlt).
    exists y. split_and!; [done | done |].
    intros [|j] z Hj Hz; simpl in Hz.
    + congruence.
    + apply (Hlt j); [lia | done].
Qed.

Lemma findIndex_is_Some (l : list A) :
  is_Some (findIndex f l) ↔ ∃ x, x ∈ l ∧ f x = true.
Proof.
  split.
  - intros [i Hi]. destruct (findIndex_Some _ _ Hi) as (x & Hx & Hfx & _).
    exists x. split; [by eapply list_elem_of_lookup_2 | done].
  - intros (x & Hx & Hfx).
    destruct (findIndex f l) eqn:E; [done |].
    apply findIndex_None in E. rewrite Forall_forall in E.
    specialize (E x Hx). congruence.
Qed.
End FindIndex.

(** The sort on a comparator that subtracts keys, [cmp a b = key b - key a]
    (newest, largest first). *)
Section SortByKey.
Context {A : Type} (key : A → Z) (cmp : A → A → Z).
Hypothesis cmp_key : ∀ a b, cmp a b = key b - key a.

Lemma js_insert_perm (x : A) (l : list A) : js_insert cmp x l ≡ₚ x :: l.
Proof.
  induction l as [|y l IH]; simpl; [done |].
  case_match; [| done]. rewrite IH. apply Permutation_swap.
Qed.

Lemma js_sort_perm (l : list A) : js_sort cmp l ≡ₚ l.
Proof.
  induction l as [|x l IH]; simpl; [done |].
  by rewrite js_insert_perm, IH.
Qed.

Lemma js_sort_length (l : list A) : length (js_sort cmp l) = length l.
Proof. by rewrite js_sort_perm. Qed.

Lemma js_insert_sorted (x : A) (l : list A) :
  StronglySorted (keyDesc key) l → StronglySorted (keyDesc key) (js_insert cmp x l).
Proof.
  induction 1 as [|y l Hl IH Hy]; simpl.
  - repeat constructor.
  - rewrite cmp_key. destruct (Z.ltb_spec 0 (key y - key x)).
    + constructor; [done |].
      rewrite js_insert_perm. constructor; [unfold keyDesc; lia | done].
    + constructor; [by constructor |].
      constructor; [unfold keyDesc; lia |].
      eapply Forall_impl; [exact Hy |]. unfold keyDesc. intros; simpl in *; lia.
Qed.

Lemma js_sort_sorted (l : list A) : StronglySorted (keyDesc key) (js_sort cmp l).
Proof.
  induction l as [|x l IH]; simpl; [constructor |].
  by apply js_insert_sorted.
Qed.

(** Stability: the elements of one key keep the order they had. *)
Lemma js_insert_stable (k : Z) (x : A) (l : list A) :
  StronglySorted (keyDesc key) l →
  filter (λ a, key a = k) (js_insert cmp x l) = filter (λ a, key a = k) (x :: l).
Proof.
  induction 1 as [|y l Hl IH Hy]; simpl; [done |].
  rewrite cmp_key. destruct (Z.ltb_spec 0 (key y - key x)); [| done].
  rewrite !filter_cons in *.
  destruct (decide (key y = k)), (decide (key x = k)); try lia; by rewrite IH.
Qed.

Lemma js_sort_stable (k : Z) (l : list A) :
  filter (λ a, key a = k) (js_sort cmp l) = filter (λ a, key a = k) l.
Proof.
  induction l as [|x l IH]; simpl; [done |].
  rewrite js_insert_stable by apply js_sort_sorted.
  by rewrite !filter_cons, IH.
Qed.

(** A list in key order is fixed by the groups of equal key, so the
    sorted, stable arrangement of an array is unique: whatever stable
    algorithm the engine runs, it returns [js_sort cmp l]. *)
Lemma sorted_stable_unique (l1 l2 : list A) :
  StronglySorted (keyDesc key) l1 → StronglySorted (keyDesc key) l2 →
  (∀ k, filter (λ a, key a = k) l1 = filter (λ a, key a = k) l2) →
  l1 = l2.
Proof.
  intros H1. revert l2. induction H1 as [|x l1 Hl1 IH Hx]; intros l2 H2 Hf.
  - destruct l2 as [|y l2]; [done |].
    specialize (Hf (key y)). rewrite filter_cons_True in Hf by done. done.
  - destruct H2 as [|y l2 Hl2 Hy].
    + specialize (Hf (key x)). rewrite filter_cons_True in Hf by done. done.
    + assert (key y = key x) as Hk.
      { assert (x ∈ y :: l2) as Hin.
        { eapply (list_elem_of_filter (λ a, key a = key x)).
          rewrite <- Hf. rewrite filter_cons_True by done. left. }
        assert (y ∈ x :: l1) as Hin'.
        { eapply (list_elem_of_filter (λ a, key a = key y)).
          rewrite Hf. rewrite filter_cons_True by done. left. }
        apply elem_of_cons in Hin as [->|Hin]; [done |].
        apply elem_of_cons in Hin' as [->|Hin']; [done |].
        rewrite Forall_forall in Hx, Hy.
        specialize (Hx _ Hin'). specialize (Hy _ Hin).
        unfold keyDesc in *. lia. }
      pose proof (Hf (key x)) as Hfx.
      rewrite !filter_cons_True in Hfx by done.
      injection Hfx as -> Hrest. f_equal.
      apply IH; [done |]. intros k. specialize (Hf k).
      rewrite !filter_cons in Hf. destruct (decide (key y = k)); congruence.
Qed.

Lemma js_sort_unique (l l' : list A) :
  StronglySorted (keyDesc key) l' →
  (∀ k, filter (λ a, key a = k) l' = filter (λ a, key a = k) l) →
  l' = js_sort cmp l.
Proof.
  intros Hs Hf. apply sorted_stable_unique; [done | apply js_sort_sorted |].
  intros k. by rewrite js_sort_stable.
Qed.

(** An array already in key order is left as it is. *)
Lemma js_sort_sorted_id (l : list A) :
  StronglySorted (keyDesc key) l → js_sort cmp l = l.
Proof. intros. symmetry. by apply js_sort_unique. Qed.

(** Cutting a sorted array: what is kept is at least as new as what is
    dropped. *)
Lemma sorted_take_drop (n : nat) (l : list A) (a b : A) :
  StronglySorted (keyDesc key) l → a ∈ take n l → b ∈ drop n l → key b ≤ key a.
Proof.
  intros Hs Ha Hb. rewrite <- (take_drop n l) in Hs.
  by eapply (StronglySorted_app_1_elem_of (keyDesc key)).
Qed.
End SortByKey.

(** The sort reads the comparator on the elements of the array only. *)
Lemma js_insert_ext {A : Type} (cmp cmp' : A → A → Z) (x : A) (l : list A) :
  (∀ y, y ∈ l → cmp x y = cmp' x y) → js_insert cmp x l = js_insert cmp' x l.
Proof.
  induction l as [|y l IH]; intros H; simpl; [done |].
  rewrite (H y) by left. rewrite IH; [done |]. intros z Hz. apply H. by right.
Qed.

Lemma js_sort_ext {A : Type} (cmp cmp' : A → A → Z) (l : list A) :
  (∀ a b, a ∈ l → b ∈ l → cmp a b = cmp' a b) → js_sort cmp l = js_sort cmp' l.
Proof.
  induction l as [|x l IH]; intros H; simpl; [done |].
  rewrite IH by (intros a b Ha Hb; apply H; by right).
  apply js_insert_ext. intros y Hy. rewrite (js_sort_perm cmp' l) in Hy.
  apply H; [left | by right].
Qed.

(** ** The feed invariant *)

Lemma sameId_true (postData p : Post) : sameId postData p = true ↔ id p = id postData.
Proof. apply String.eqb_eq. Qed.

Lemma sameId_false (postData p : Post) : sameId postData p = false ↔ id p ≠ id postData.
Proof. apply String.eqb_neq. Qed.

Lemma findIndex_id_None (postData : Post) (feed : list Post) :
  findIndex (sameId postData) feed = None ↔ id postData ∉ (id <$> feed).
Proof.
  rewrite findIndex_None, Forall_forall, list_elem_of_fmap. split.
  - intros H (q & Hq & Hin). apply H in Hin. by apply sameId_false in Hin.
  - intros H q Hin. apply sameId_false. intros Heq. apply H. by exists q.
Qed.

Lemma findIndex_id_Some (postData : Post) (feed : list Post) (i : nat) :
  findIndex (sameId postData) feed = Some i →
  ∃ q, feed !! i = Some q ∧ id q = id postData.
Proof.
  intros H. destruct (findIndex_Some _ _ _ H) as (q & Hq & Hid & _).
  exists q. split; [done | by apply sameId_true].
Qed.

(** In a feed without duplicate ids the index found is the index of the
    only record with that id. *)
Lemma findIndex_id_unique (postData q : Post) (feed : list Post) (i : nat) :
  NoDup (id <$> feed) → feed !! i = Some q → id q = id postData →
  findIndex (sameId postData) feed = Some i.
Proof.
  intros Hnd Hq Hid.
  destruct (findIndex (sameId postData) feed) as [j|] eqn:E.
  - destruct (findIndex_id_Some _ _ _ E) as (q' & Hq' & Hid').
    f_equal. eapply NoDup_lookup; [exact Hnd | |].
    + rewrite list_lookup_fmap, Hq'. simpl. by rewrite Hid'.
    + rewrite list_lookup_fmap, Hq. simpl. by rewrite Hid.
  - apply findIndex_id_None in E. exfalso. apply E.
    apply list_elem_of_fmap. exists q. split; [done |].
    by eapply list_elem_of_lookup_2.
Qed.

Lemma upsertFeed_ids_replace (postData : Post) (feed : list Post) (i : nat) :
  findIndex (sameId postData) feed = Some i →
  id <$> <[i := postData]> feed = id <$> feed.
Proof.
  intros H. destruct (findIndex_id_Some _ _ _ H) as (q & Hq & Hid).
  rewrite list_fmap_insert. apply list_insert_id.
  rewrite list_lookup_fmap, Hq. simpl. by rewrite Hid.
Qed.

Lemma upsertFeed_NoDup (postData : Post) (feed : list Post) :
  NoDup (id <$> feed) → NoDup (id <$> upsertFeed postData feed).
Proof.
  intros Hnd. unfold upsertFeed. fold (sameId postData).
  destruct (findIndex (sameId postData) feed) as [i|] eqn:E.
  - by rewrite upsertFeed_ids_replace.
  - apply findIndex_id_None in E. rewrite fmap_app. simpl.
    apply NoDup_app. split_and!; [done | | apply NoDup_singleton].
    intros x Hx Hx'. apply list_elem_of_singleton in Hx'. by subst.
Qed.

Lemma upsertFeed_length (postData : Post) (feed : list Post) :
  (length (upsertFeed postData feed) ≤ S (length feed))%nat.
Proof.
  unfold upsertFeed. case_match.
  - rewrite length_insert. lia.
  - rewrite length_app. simpl. lia.
Qed.

Lemma upsertFeed_elem (postData : Post) (feed : list Post) :
  postData ∈ upsertFeed postData feed.
Proof.
  unfold upsertFeed. fold (sameId postData).
  destruct (findIndex (sameId postData) feed) as [i|] eqn:E.
  - destruct (findIndex_id_Some _ _ _ E) as (q & Hq & _).
    eapply list_elem_of_lookup_2. apply list_lookup_insert_eq.
    by eapply lookup_lt_Some.
  - apply elem_of_app. right. left.
Qed.

Lemma byScrapedAtDesc_key (a b : Post) : byScrapedAtDesc a b = scrapedAt b - scrapedAt a.
Proof. done. Qed.

Lemma trimFeed_length (feed : list Post) : (length (trimFeed feed) ≤ MAX_FEED_SIZE)%nat.
Proof.
  unfold trimFeed. destruct (Nat.ltb_spec MAX_FEED_SIZE (length feed)); [| done].
  rewrite length_take. lia.
Qed.

Lemma trimFeed_small (feed : list Post) :
  (length feed ≤ MAX_FEED_SIZE)%nat → trimFeed feed = feed.
Proof.
  intros H. unfold trimFeed.
  by destruct (Nat.ltb_spec MAX_FEED_SIZE (length feed)); [lia |].
Qed.

Lemma trimFeed_NoDup (feed : list Post) :
  NoDup (id <$> feed) → NoDup (id <$> trimFeed feed).
Proof.
  intros Hnd. unfold trimFeed. case_match; [| done].
  rewrite fmap_take. eapply sublist_NoDup; [| apply sublist_take].
  by rewrite (js_sort_perm byScrapedAtDesc feed).
Qed.

Lemma trimFeed_elem (feed : list Post) (p : Post) : p ∈ trimFeed feed → p ∈ feed.
Proof.
  unfold trimFeed. case_match; [| done].
  intros Hin. apply subseteq_take in Hin.
  by rewrite (js_sort_perm byScrapedAtDesc) in Hin.
Qed.

Lemma NoDup_ids_eq (feed : list Post) (p q : Post) :
  NoDup (id <$> feed) → p ∈ feed → q ∈ feed → id p = id q → p = q.
Proof.
  intros Hnd Hp Hq Hid.
  apply list_elem_of_lookup in Hp as [i Hi].
  apply list_elem_of_lookup in Hq as [j Hj].
  assert (i = j) as ->; [| congruence].
  eapply NoDup_lookup; [exact Hnd | |].
  - rewrite list_lookup_fmap, Hi. done.
  - rewrite list_lookup_fmap, Hj. simpl. by rewrite Hid.
Qed.


Lemma handleNewPost_feed (postData : Post) (tabId : option Z) (s : State) :
  unifiedFeed (handleNewPost postData tabId s)
  = trimFeed (upsertFeed (setSourceTabId postData tabId) (unifiedFeed s)).
Proof. unfold handleNewPost, upsertFeed. by case_match. Qed.

Lemma handleNewPost_storage (postData : Post) (tabId : option Z) (s : State) :
  storage (handleNewPost postData tabId s) = storage s.
Proof. unfold handleNewPost. by case_match. Qed.

Lemma feedOk_nil : feedOk [].
Proof. split; [simpl; lia | constructor]. Qed.

Lemma feedOk_upsert (postData : Post) (feed : list Post) :
  feedOk feed → feedOk (trimFeed (upsertFeed postData feed)).
Proof.
  intros [_ Hnd]. split; [apply trimFeed_length |].
  by apply trimFeed_NoDup, upsertFeed_NoDup.
Qed.

Lemma feedOk_filter (P : Post → Prop) `{!∀ p, Decision (P p)} (feed : list Post) :
  feedOk feed → feedOk (filter P feed).
Proof.
  intros [Hlen Hnd]. split.
  - pose proof (length_filter P feed). lia.
  - eapply sublist_NoDup; [exact Hnd |]. apply fmap_sublist, sublist_filter.
Qed.

Lemma invariant_handleNewPost (postData : Post) (tabId : option Z) (s : State) :
  invariant s → invariant (handleNewPost postData tabId s).
Proof.
  intros [Hf Hs]. split.
  - rewrite handleNewPost_feed. by apply feedOk_upsert.
  - by rewrite handleNewPost_storage.
Qed.

Lemma invariant_cleanupTabPosts (tabId : Z) (s : State) :
  invariant s → invariant (cleanupTabPosts tabId s).
Proof. intros [Hf Hs]. split; [by apply feedOk_filter | done]. Qed.

Lemma invariant_unmonitorTab (tabId : Z) (s : State) :
  invariant s → invariant (unmonitorTab tabId s).
Proof.
  intros H. unfold unmonitorTab. case_match; [| done].
  by apply invariant_cleanupTabPosts.
Qed.

Lemma invariant_clearFeed (s : State) : invariant (clearFeed s).
Proof.
  split; [apply feedOk_nil |]. simpl. intros feed [= <-]. apply feedOk_nil.
Qed.

Lemma invariant_step (s : State) (e : Event) : invariant s → invariant (step s e).
Proof.
  intros H. destruct e as [m t | tab now | tabId | tabId now | | | |]; simpl.
  - destruct m; simpl; try done.
    + by apply invariant_handleNewPost.
    + apply invariant_clearFeed.
  - unfold monitorTab. by repeat case_match.
  - by apply invariant_unmonitorTab.
  - unfold tabActivated. by case_match.
  - destruct H as [Hf _]. split; [done |]. simpl. intros feed [= <-]. apply feedOk_nil.
  - unfold saveTimerFired. case_match; [| done].
    destruct H as [Hf Hs]. split; [done |]. simpl. by intros feed [= <-].
  - unfold loadResolved. case_match; [| done].
    destruct H as [Hf Hs]. destruct (storage s) as [feed|] eqn:E.
    + split; [by apply Hs |]. simpl. rewrite E. exact Hs.
    + split; [done |]. simpl. by rewrite E.
  - destruct H as [_ Hs]. split; [apply feedOk_nil | done].
Qed.

Lemma invariant_run (events : list Event) (s : State) :
  invariant s → invariant (run events s).
Proof.
  revert s. induction events as [|e events IH]; intros s H; [done |].
  apply IH. by apply invariant_step.
Qed.

Lemma invariant_coldStart : invariant coldStart.
Proof. split; [apply feedOk_nil | done]. Qed.

Lemma reachable_invariant (s : State) : reachable s → invariant s.
Proof. intros [events ->]. apply invariant_run, invariant_coldStart. Qed.

Lemma reachable_step (s : State) (e : Event) : reachable s → reachable (step s e).
Proof.
  intros [events ->]. exists (events ++ [e]). unfold run. by rewrite foldl_app.
Qed.

(** ** Capacity *)

Example fullState_length : length (unifiedFeed fullState) = MAX_FEED_SIZE.
Proof. vm_compute. reflexivity. Qed.

Lemma trimFeed_evicts (feed : list Post) :
  (MAX_FEED_SIZE < length feed)%nat →
  length (trimFeed feed) = MAX_FEED_SIZE ∧
  ∃ dropped, feed ≡ₚ trimFeed feed ++ dropped ∧
    ∀ k d, k ∈ trimFeed feed → d ∈ dropped → scrapedAt d ≤ scrapedAt k.
Proof.
  intros Hlen. unfold trimFeed.
  destruct (Nat.ltb_spec MAX_FEED_SIZE (length feed)); [| lia].
  split.
  - rewrite length_take_le; [done |].
    rewrite (js_sort_length byScrapedAtDesc). lia.
  - exists (drop MAX_FEED_SIZE (js_sort byScrapedAtDesc feed)). split.
    + by rewrite take_drop, (js_sort_perm byScrapedAtDesc).
    + intros k d Hk Hd.
      eapply (sorted_take_drop scrapedAt); [| exact Hk | exact Hd].
      apply (js_sort_sorted scrapedAt byScrapedAtDesc byScrapedAtDesc_key).
Qed.

(** C1.  In every state the worker can reach the feed holds at most 500
    records, and so it does after each mutation of it (an upsert with its
    trim, a cascade delete, a clear).  Whenever the upsert leaves more
    than 500 records before the trim, the trim keeps exactly 500 of them
    and every record it drops was scraped no later than every record it
    keeps: the records kept are the 500 most recently scraped. *)
Theorem C1_capacity_bound (s : State) :
  reachable s →
  (length (unifiedFeed s) ≤ MAX_FEED_SIZE)%nat ∧
  (∀ postData tabId,
     (length (unifiedFeed (handleNewPost postData tabId s)) ≤ MAX_FEED_SIZE)%nat) ∧
  (∀ tabId, (length (unifiedFeed (cleanupTabPosts tabId s)) ≤ MAX_FEED_SIZE)%nat) ∧
  (length (unifiedFeed (clearFeed s)) ≤ MAX_FEED_SIZE)%nat ∧
  ∀ postData tabId,
    let upserted := upsertFeed (setSourceTabId postData tabId) (unifiedFeed s) in
    let kept := unifiedFeed (handleNewPost postData tabId s) in
    (MAX_FEED_SIZE < length upserted)%nat →
    length kept = MAX_FEED_SIZE ∧
    ∃ dropped, upserted ≡ₚ kept ++ dropped ∧
      ∀ k d, k ∈ kept → d ∈ dropped → scrapedAt d ≤ scrapedAt k.
Proof.
  intros Hr. pose proof (reachable_invariant s Hr) as Hinv.
  split_and!.
  - by destruct Hinv as [[Hlen _] _].
  - intros postData tabId.
    by destruct (invariant_handleNewPost postData tabId s Hinv) as [[Hlen _] _].
  - intros tabId.
    by destruct (invariant_cleanupTabPosts tabId s Hinv) as [[Hlen _] _].
  - simpl. lia.
  - intros postData tabId upserted kept Hlen. subst kept.
    rewrite handleNewPost_feed. by apply trimFeed_evicts.
Qed.

(** C1 at the full feed: one more post from tab 2 overflows it. *)
Lemma C1_capacity_bound_witness :
  reachable fullState ∧
  length (unifiedFeed (handleNewPost (samplePost 500) (Some 2) fullState))
    = MAX_FEED_SIZE ∧
  ∃ dropped,
    upsertFeed (setSourceTabId (samplePost 500) (Some 2)) (unifiedFeed fullState)
      ≡ₚ unifiedFeed (handleNewPost (samplePost 500) (Some 2) fullState) ++ dropped ∧
    ∀ k d, k ∈ unifiedFeed (handleNewPost (samplePost 500) (Some 2) fullState) →
           d ∈ dropped → scrapedAt d ≤ scrapedAt k.
Proof.
  assert (reachable fullState) as Hr by (by exists (scrapeEvents MAX_FEED_SIZE)).
  split; [exact Hr |].
  apply (C1_capacity_bound fullState Hr).
  vm_compute. lia.
Defined.

(** ** One record per id *)

Lemma handleNewPost_replace (s : State) (postData : Post) (tabId : option Z)
    (i : nat) (q : Post) :
  feedOk (unifiedFeed s) →
  unifiedFeed s !! i = Some q → id q = id postData →
  unifiedFeed (handleNewPost postData tabId s)
  = <[i := setSourceTabId postData tabId]> (unifiedFeed s).
Proof.
  intros [Hlen Hnd] Hq Hid. rewrite handleNewPost_feed. unfold upsertFeed.
  fold (sameId (setSourceTabId postData tabId)).
  rewrite (findIndex_id_unique (setSourceTabId postData tabId) q _ i Hnd Hq Hid).
  apply trimFeed_small. by rewrite length_insert.
Qed.

(** C2.  In every state the worker can reach no two records of the feed
    have the same id.  On every feed that is well formed (no two records
    of the same id, at most 500 records), reached or not, an upsert
    leaves a feed without two records of the same id; and an upsert of
    an id that is stored at position [i] puts the incoming record (all
    its fields, stamped with the sender) at position [i] and changes
    nothing else: the feed keeps its length, nothing is appended. *)
Theorem C2_one_record_per_id (s : State) (postData : Post) (tabId : option Z) :
  (reachable s → NoDup (id <$> unifiedFeed s)) ∧
  (feedOk (unifiedFeed s) →
     NoDup (id <$> unifiedFeed (handleNewPost postData tabId s)) ∧
     ∀ i q, unifiedFeed s !! i = Some q → id q = id postData →
       unifiedFeed (handleNewPost postData tabId s)
         = <[i := setSourceTabId postData tabId]> (unifiedFeed s) ∧
       unifiedFeed (handleNewPost postData tabId s) !! i
         = Some (setSourceTabId postData tabId) ∧
       length (unifiedFeed (handleNewPost postData tabId s))
         = length (unifiedFeed s)).
Proof.
  split.
  - intros Hr. by destruct (reachable_invariant s Hr) as [[_ Hnd] _].
  - intros Hok. split.
    + rewrite handleNewPost_feed. apply trimFeed_NoDup, upsertFeed_NoDup.
      by destruct Hok.
    + intros i q Hq Hid.
      rewrite (handleNewPost_replace s postData tabId i q Hok Hq Hid).
      split_and!; [done | | by rewrite length_insert].
      apply list_lookup_insert_eq. by eapply lookup_lt_Some.
Qed.

(** C2 on a feed of three posts of tab 1: tab 2 announces the second one
    again, with a like. *)
Lemma C2_one_record_per_id_witness :
  unifiedFeed (handleNewPost likedPost (Some 2) (run (scrapeEvents 3) coldStart))
  = [setSourceTabId (samplePost 0) (Some 1);
     setSourceTabId likedPost (Some 2);
     setSourceTabId (samplePost 2) (Some 1)].
Proof.
  destruct (C2_one_record_per_id (run (scrapeEvents 3) coldStart) likedPost (Some 2))
    as [_ H].
  destruct H as [_ H].
  - split; [vm_compute; lia |]. vm_compute.
    repeat (apply NoDup_cons; split;
            [intros Hin; repeat (apply elem_of_cons in Hin as [Hin|Hin]; [done |]);
             by apply elem_of_nil in Hin |]).
    apply NoDup_nil_2.
  - destruct (H 1%nat (setSourceTabId (samplePost 1) (Some 1)) eq_refl eq_refl)
      as [-> _].
    reflexivity.
Defined.

(** ** Cascade delete *)

Lemma cleanupTabPosts_feed (tabId : Z) (s : State) :
  unifiedFeed (cleanupTabPosts tabId s)
  = filter (λ post, sourceTabId post ≠ Some tabId) (unifiedFeed s).
Proof. done. Qed.

(** C6, as the code has it.  Stopping the monitoring of a session [S]
    that is in the registry leaves in the feed the posts whose
    [sourceTabId] is not [S], all of them and in their order, and
    removes the posts whose [sourceTabId] is [S]; the session leaves the
    registry.  For a session that is not in the registry nothing happens
    at all, whether the feed holds posts of it or not. *)
Theorem C6_cascade_delete (s : State) (S : Z) :
  (is_Some (monitoredTabs s !! S) →
     unifiedFeed (unmonitorTab S s)
       = filter (λ post, sourceTabId post ≠ Some S) (unifiedFeed s) ∧
     (∀ post, post ∈ unifiedFeed (unmonitorTab S s)
              ↔ post ∈ unifiedFeed s ∧ sourceTabId post ≠ Some S) ∧
     unifiedFeed s
       ≡ₚ unifiedFeed (unmonitorTab S s)
          ++ filter (λ post, sourceTabId post = Some S) (unifiedFeed s) ∧
     monitoredTabs (unmonitorTab S s) !! S = None) ∧
  (monitoredTabs s !! S = None → unmonitorTab S s = s).
Proof.
  split.
  - intros [info Hinfo]. unfold unmonitorTab. rewrite Hinfo.
    rewrite cleanupTabPosts_feed. simpl. split_and!.
    + done.
    + intros post. rewrite list_elem_of_filter. tauto.
    + rewrite (comm (++)). symmetry.
      apply (filter_app_complement (λ post, sourceTabId post = Some S)).
    + apply lookup_delete_eq.
  - intros Hnone. unfold unmonitorTab. by rewrite Hnone.
Qed.

(** C6 on [twoTabs]: closing tab 1 leaves the three posts of tab 2, and
    closing the unknown tab 3 changes nothing. *)
Lemma C6_cascade_delete_witness :
  unifiedFeed (unmonitorTab 1 twoTabs)
    = (λ k, setSourceTabId (samplePost k) (Some 2)) <$> seq 3 3 ∧
  unmonitorTab 3 twoTabs = twoTabs.
Proof.
  split.
  - destruct (C6_cascade_delete twoTabs 1) as [H _].
    destruct H as [-> _]; [by eexists | reflexivity].
  - destruct (C6_cascade_delete twoTabs 3) as [_ H].
    apply H. reflexivity.
Defined.

(** C6 as the specification words it fails for a session the registry
    does not hold: after a restart the feed of [restoredTwoTabs] holds
    the three posts of tab 1 and the three posts of tab 2 while the
    registry is empty, and stopping tab 1 removes nothing. *)
Lemma C6_unregistered_session_counterexample :
  reachable restoredTwoTabs ∧
  monitoredTabs restoredTwoTabs !! 1 = None ∧
  filter (λ post, sourceTabId post = Some 1) (unifiedFeed restoredTwoTabs)
    = (λ k, setSourceTabId (samplePost k) (Some 1)) <$> seq 0 3 ∧
  filter (λ post, sourceTabId post = Some 2) (unifiedFeed restoredTwoTabs)
    = (λ k, setSourceTabId (samplePost k) (Some 2)) <$> seq 3 3 ∧
  unifiedFeed (unmonitorTab 1 restoredTwoTabs) = unifiedFeed restoredTwoTabs.
Proof.
  split_and!; [| vm_compute; reflexivity ..].
  eexists (_ ++ [EvSaveTimer; EvRestart; EvLoadResolved]).
  unfold restoredTwoTabs, run. symmetry. apply foldl_app.
Qed.

(** ** Re-announcement from another session *)



(** ** Notifications *)

Lemma handleNewPost_outbox_new (s : State) (postData : Post) (tabId : option Z) :
  id postData ∉ (id <$> unifiedFeed s) →
  outbox (handleNewPost postData tabId s)
  = outbox s ++ [FEED_UPDATED (setSourceTabId postData tabId)].
Proof.
  intros Hnew. unfold handleNewPost.
  fold (sameId (setSourceTabId postData tabId)).
  by rewrite (proj2 (findIndex_id_None (setSourceTabId postData tabId) _) Hnew).
Qed.

Lemma handleNewPost_outbox_known (s : State) (postData : Post) (tabId : option Z) :
  id postData ∈ (id <$> unifiedFeed s) →
  outbox (handleNewPost postData tabId s) = outbox s.
Proof.
  intros Hold. unfold handleNewPost.
  fold (sameId (setSourceTabId postData tabId)).
  destruct (findIndex _ (unifiedFeed s)) eqn:E; [done |].
  by apply findIndex_id_None in E.
Qed.

Lemma handleNewPost_append (s : State) (postData : Post) (tabId : option Z) :
  id postData ∉ (id <$> unifiedFeed s) →
  unifiedFeed (handleNewPost postData tabId s)
  = trimFeed (unifiedFeed s ++ [setSourceTabId postData tabId]).
Proof.
  intros Hnew. rewrite handleNewPost_feed. unfold upsertFeed.
  fold (sameId (setSourceTabId postData tabId)).
  by rewrite (proj2 (findIndex_id_None (setSourceTabId postData tabId) _) Hnew).
Qed.

(** Announcing again a record that is in the feed as it was announced
    changes nothing at all. *)
Lemma handleNewPost_again (s : State) (postData : Post) (tabId : option Z) :
  feedOk (unifiedFeed s) → saveTimeout s = true →
  setSourceTabId postData tabId ∈ unifiedFeed s →
  handleNewPost postData tabId s = s.
Proof.
  intros [Hlen Hnd] Hsave Hin.
  apply list_elem_of_lookup in Hin as [i Hi].
  unfold handleNewPost. fold (sameId (setSourceTabId postData tabId)).
  rewrite (findIndex_id_unique (setSourceTabId postData tabId) _ _ i Hnd Hi eq_refl).
  simpl. rewrite (list_insert_id _ _ _ Hi), (trimFeed_small _ Hlen).
  destruct s; simpl in *. by subst.
Qed.

(** C3, as the code has it.  A record whose id is empty is upserted under
    that id like any other record, and no invalid input is reported: the
    only thing the handler may send is [FEED_UPDATED].  While no stored
    record has the empty id the record is pushed and announced (and it
    stays, at the end, when the feed was below capacity); once one has,
    the record replaces it where it stands and nothing is sent. *)
Theorem C3_empty_id_is_upserted (s : State) (postData : Post) (tabId : option Z) :
  id postData = "" →
  let stamped := setSourceTabId postData tabId in
  (("" : string) ∉ (id <$> unifiedFeed s) →
     unifiedFeed (handleNewPost postData tabId s)
       = trimFeed (unifiedFeed s ++ [stamped]) ∧
     outbox (handleNewPost postData tabId s) = outbox s ++ [FEED_UPDATED stamped] ∧
     ((length (unifiedFeed s) < MAX_FEED_SIZE)%nat →
        unifiedFeed (handleNewPost postData tabId s) = unifiedFeed s ++ [stamped])) ∧
  (∀ i q, feedOk (unifiedFeed s) → unifiedFeed s !! i = Some q → id q = "" →
     unifiedFeed (handleNewPost postData tabId s) = <[i := stamped]> (unifiedFeed s) ∧
     outbox (handleNewPost postData tabId s) = outbox s).
Proof.
  intros Hid stamped. split.
  - intros Hnew. rewrite <- Hid in Hnew. split_and!.
    + by apply handleNewPost_append.
    + by apply handleNewPost_outbox_new.
    + intros Hlen. rewrite handleNewPost_append by done.
      apply trimFeed_small. rewrite length_app. simpl. lia.
  - intros i q Hok Hq Hq'. split.
    + apply (handleNewPost_replace s postData tabId i q Hok Hq). congruence.
    + apply handleNewPost_outbox_known. rewrite Hid, <- Hq'.
      apply list_elem_of_fmap. exists q. split; [done |].
      by eapply list_elem_of_lookup_2.
Qed.

(** C3 on the empty feed. *)
Lemma C3_empty_id_is_upserted_witness :
  unifiedFeed (handleNewPost namelessPost (Some 1) coldStart)
    = [setSourceTabId namelessPost (Some 1)] ∧
  outbox (handleNewPost namelessPost (Some 1) coldStart)
    = [FEED_UPDATED (setSourceTabId namelessPost (Some 1))].
Proof.
  destruct (C3_empty_id_is_upserted coldStart namelessPost (Some 1) eq_refl)
    as [H _].
  destruct H as (_ & Ho & Hf).
  - simpl. apply not_elem_of_nil.
  - split; [apply Hf; vm_compute; lia | exact Ho].
Defined.

(** C3 as the specification words it fails: the record without an id is
    stored and announced, not rejected. *)
Lemma C3_empty_id_counterexample :
  id namelessPost = "" ∧
  unifiedFeed (handleNewPost namelessPost (Some 1) coldStart) ≠ unifiedFeed coldStart ∧
  setSourceTabId namelessPost (Some 1)
    ∈ unifiedFeed (handleNewPost namelessPost (Some 1) coldStart) ∧
  outbox (handleNewPost namelessPost (Some 1) coldStart)
    = [FEED_UPDATED (setSourceTabId namelessPost (Some 1))].
Proof.
  split_and!; [done | done | | done]. vm_compute. left.
Qed.

(** C4, as the code has it.  An upsert sends [FEED_UPDATED] exactly when
    the id was not in the feed.  If the record is in the feed once the
    upsert is done, which is so whenever the feed was below capacity,
    announcing the same record from the same sender once more changes
    nothing: same feed, same log of notifications, same state. *)
Theorem C4_notify_iff_created (s : State) (postData : Post) (tabId : option Z) :
  reachable s →
  let stamped := setSourceTabId postData tabId in
  let s1 := handleNewPost postData tabId s in
  (id postData ∉ (id <$> unifiedFeed s) →
     outbox s1 = outbox s ++ [FEED_UPDATED stamped]) ∧
  (id postData ∈ (id <$> unifiedFeed s) → outbox s1 = outbox s) ∧
  (id postData ∈ (id <$> unifiedFeed s1) → handleNewPost postData tabId s1 = s1) ∧
  ((length (unifiedFeed s) < MAX_FEED_SIZE)%nat →
     id postData ∈ (id <$> unifiedFeed s1)).
Proof.
  intros Hr stamped s1. subst stamped s1.
  pose proof (reachable_invariant s Hr) as Hinv.
  pose proof (invariant_handleNewPost postData tabId s Hinv) as [Hok1 _].
  split_and!.
  - apply handleNewPost_outbox_new.
  - apply handleNewPost_outbox_known.
  - intros Hin. apply handleNewPost_again; [done | | ].
    { unfold handleNewPost. by case_match. }
    apply list_elem_of_fmap in Hin as (q & Hq & Hin).
    assert (q = setSourceTabId postData tabId) as Heq; [| by rewrite <- Heq].
    assert (q ∈ upsertFeed (setSourceTabId postData tabId) (unifiedFeed s)) as Hin'.
    { apply trimFeed_elem. by rewrite handleNewPost_feed in Hin. }
    eapply NoDup_ids_eq; [| exact Hin' | apply upsertFeed_elem | by rewrite <- Hq].
    apply upsertFeed_NoDup. by destruct Hinv as [[_ Hnd] _].
  - intros Hlen. apply list_elem_of_fmap.
    exists (setSourceTabId postData tabId). split; [done |].
    rewrite handleNewPost_feed, trimFeed_small.
    + apply upsertFeed_elem.
    + pose proof (upsertFeed_length (setSourceTabId postData tabId) (unifiedFeed s)).
      lia.
Qed.

(** C4 on a feed of three posts: a fourth post is announced twice. *)
Lemma C4_notify_iff_created_witness :
  outbox (handleNewPost (samplePost 3) (Some 1) (run (scrapeEvents 3) coldStart))
    = outbox (run (scrapeEvents 3) coldStart)
      ++ [FEED_UPDATED (setSourceTabId (samplePost 3) (Some 1))] ∧
  handleNewPost (samplePost 3) (Some 1)
    (handleNewPost (samplePost 3) (Some 1) (run (scrapeEvents 3) coldStart))
  = handleNewPost (samplePost 3) (Some 1) (run (scrapeEvents 3) coldStart).
Proof.
  assert (reachable (run (scrapeEvents 3) coldStart)) as Hr by (by eexists).
  destruct (C4_notify_iff_created _ (samplePost 3) (Some 1) Hr) as (H1 & _ & H3 & H4).
  split.
  - apply H1. vm_compute. intros H. by repeat (apply elem_of_cons in H as [H|H]; [done |]);
      apply elem_of_nil in H.
  - apply H3, H4. vm_compute. lia.
Defined.

(** C4 as the specification words it fails at capacity: [stalePost] is
    older than the 500 records of [fullState], so the trim evicts it as
    soon as it is pushed; announcing it again pushes it again, and a
    second [FEED_UPDATED] is sent. *)
Lemma C4_second_notification_counterexample :
  reachable fullState ∧
  let s1 := handleNewPost stalePost (Some 2) fullState in
  let s2 := handleNewPost stalePost (Some 2) s1 in
  outbox s1 = outbox fullState ++ [FEED_UPDATED (setSourceTabId stalePost (Some 2))] ∧
  outbox s2 = outbox s1 ++ [FEED_UPDATED (setSourceTabId stalePost (Some 2))] ∧
  unifiedFeed s2 = unifiedFeed s1.
Proof.
  split; [by exists (scrapeEvents MAX_FEED_SIZE) |].
  vm_compute. done.
Qed.

(** ** The sort views *)

Lemma js_or_0 (x : option Z) : js_or x 0 = default 0 x.
Proof. destruct x as [v|]; simpl; [| done]. by destruct (Z.eqb_spec v 0). Qed.

Lemma numericTime_toNumber (a : Post) :
  numericTime a → toNumber (timeOf a) = Some (timeKey a).
Proof.
  unfold numericTime, timeKey, timeOf.
  destruct (timestamp a) as [[n|text]|]; try done. simpl. by destruct (n =? 0).
Qed.

Lemma byTimeDesc_numeric (a b : Post) :
  numericTime a → numericTime b → byTimeDesc a b = timeKey b - timeKey a.
Proof.
  intros Ha Hb. unfold byTimeDesc, timeDiff.
  by rewrite (numericTime_toNumber a Ha), (numericTime_toNumber b Hb).
Qed.

Lemma byTimeAsc_numeric (a b : Post) :
  numericTime a → numericTime b → byTimeAsc a b = (- timeKey b) - (- timeKey a).
Proof.
  intros Ha Hb. unfold byTimeAsc, timeDiff.
  rewrite (numericTime_toNumber a Ha), (numericTime_toNumber b Hb). lia.
Qed.

Lemma byPlatform_numeric (a b : Post) :
  numericTime a → numericTime b → byPlatform a b = byPlatformKey a b.
Proof.
  intros Ha Hb. unfold byPlatform, byPlatformKey, timeDiff.
  by rewrite (numericTime_toNumber a Ha), (numericTime_toNumber b Hb).
Qed.

(** On a feed whose time stamps are numbers the time views sort by the
    numeric key. *)
Lemma js_sort_byTimeDesc (feed : list Post) :
  (∀ a, a ∈ feed → numericTime a) →
  js_sort byTimeDesc feed = js_sort (λ a b, timeKey b - timeKey a) feed.
Proof.
  intros Hnum. apply js_sort_ext. intros a b Ha Hb.
  apply byTimeDesc_numeric; by apply Hnum.
Qed.

Lemma js_sort_byTimeAsc (feed : list Post) :
  (∀ a, a ∈ feed → numericTime a) →
  js_sort byTimeAsc feed = js_sort (λ a b, (- timeKey b) - (- timeKey a)) feed.
Proof.
  intros Hnum. apply js_sort_ext. intros a b Ha Hb.
  apply byTimeAsc_numeric; by apply Hnum.
Qed.

Lemma js_sort_byPlatform (feed : list Post) :
  (∀ a, a ∈ feed → numericTime a) →
  js_sort byPlatform feed = js_sort byPlatformKey feed.
Proof.
  intros Hnum. apply js_sort_ext. intros a b Ha Hb.
  apply byPlatform_numeric; by apply Hnum.
Qed.

Lemma byEngagementDesc_key (a b : Post) :
  byEngagementDesc a b = engagementOf b - engagementOf a.
Proof. done. Qed.

Lemma StronglySorted_impl_elem {A : Type} (R R' : A → A → Prop) (l : list A) :
  (∀ a b, a ∈ l → b ∈ l → R a b → R' a b) →
  StronglySorted R l → StronglySorted R' l.
Proof.
  intros Himpl Hs. induction Hs as [|x l Hl IH Hx]; constructor.
  - apply IH. intros a b Ha Hb. apply Himpl; by right.
  - rewrite Forall_forall in *. intros y Hy.
    apply Himpl; [left | by right | by apply Hx].
Qed.

Lemma upsertFeed_elem_inv (postData r : Post) (feed : list Post) :
  r ∈ upsertFeed postData feed → r ∈ feed ∨ r = postData.
Proof.
  unfold upsertFeed. case_match.
  - intros Hin. apply list_elem_of_lookup in Hin as [j Hj].
    destruct (decide (n = j)) as [->|Hne].
    + apply lookup_lt_Some in Hj as Hlt. rewrite length_insert in Hlt.
      rewrite list_lookup_insert_eq in Hj by done. right. congruence.
    + rewrite list_lookup_insert_ne in Hj by done.
      left. by eapply list_elem_of_lookup_2.
  - intros Hin. apply elem_of_app in Hin as [Hin|Hin]; [by left |].
    apply list_elem_of_singleton in Hin. by right.
Qed.

(** C7, as the code has it.  An upsert stores the engagement mapping as
    the producer sent it: every record of the feed after an upsert is a
    record that was there or the incoming record with only its
    [sourceTabId] set.  The engagement view is the stable sort of the
    feed, descending, by the sum of the six counters likes, retweets,
    reposts, boosts, favorites and replies, an absent counter counting 0
    and an absent engagement counting 0 altogether. *)
Theorem C7_engagement_as_sent (s : State) :
  (∀ postData tabId r,
     engagement (setSourceTabId postData tabId) = engagement postData ∧
     (r ∈ unifiedFeed (handleNewPost postData tabId s) →
      r ∈ unifiedFeed s ∨ r = setSourceTabId postData tabId)) ∧
  (let sorted := getSortedFeed (Some "engagement") s in
   sorted ≡ₚ unifiedFeed s ∧
   StronglySorted (λ a b, engagementOf b ≤ engagementOf a) sorted ∧
   ∀ k, filter (λ a, engagementOf a = k) sorted
        = filter (λ a, engagementOf a = k) (unifiedFeed s)) ∧
  (∀ a, engagement a = None → engagementOf a = 0) ∧
  (∀ a e, engagement a = Some e →
     engagementOf a
     = default 0 (likes e) + default 0 (retweets e) + default 0 (reposts e) +
       default 0 (boosts e) + default 0 (favorites e) + default 0 (replies e)).
Proof.
  split_and!.
  - intros postData tabId r. split; [done |].
    rewrite handleNewPost_feed. intros Hin.
    by apply upsertFeed_elem_inv, trimFeed_elem.
  - change (getSortedFeed (Some "engagement"%string) s)
      with (js_sort byEngagementDesc (unifiedFeed s)).
    split_and!.
    + apply js_sort_perm.
    + apply (js_sort_sorted engagementOf _ byEngagementDesc_key).
    + intros k. apply (js_sort_stable engagementOf _ byEngagementDesc_key).
  - intros a Ha. unfold engagementOf. by rewrite Ha.
  - intros a e Ha. unfold engagementOf. rewrite Ha. simpl. by rewrite !js_or_0.
Qed.

(** C7 on the toot and on the three posts. *)
Lemma C7_engagement_as_sent_witness :
  engagementOf tootPost = 6 ∧
  StronglySorted (λ a b, engagementOf b ≤ engagementOf a)
    (getSortedFeed (Some "engagement") likesState) ∧
  engagementOf <$> getSortedFeed (Some "engagement") likesState = [20; 10; 5].
Proof.
  destruct (C7_engagement_as_sent likesState) as (_ & (_ & Hs & _) & _ & He).
  split_and!.
  - rewrite (He tootPost _ eq_refl). reflexivity.
  - exact Hs.
  - reflexivity.
Defined.

(** C7 as the specification words it fails: the toot is stored with the
    counters of its platform, boosts and favorites, not with the triple
    replies, reposts, likes. *)
Lemma C7_not_normalized_counterexample :
  engagement <$> unifiedFeed (handleNewPost tootPost (Some 3) coldStart)
    = [Some {| likes := None; retweets := None; reposts := None;
               boosts := Some 2; favorites := Some 3; replies := Some 1 |}] ∧
  ¬ canonicalEngagement
      {| likes := None; retweets := None; reposts := None;
         boosts := Some 2; favorites := Some 3; replies := Some 1 |}.
Proof.
  split; [done |]. intros (_ & [x Hx] & _). discriminate Hx.
Qed.

(** C8, as the code has it.  For a policy that is none of the four the
    [switch] has no case: the view is the feed in its stored order.  The
    chronological order is the default of an absent policy only. *)
Theorem C8_unknown_policy_unsorted (s : State) (sortBy : string) :
  sortBy ≠ "chronological"%string → sortBy ≠ "chronological-old"%string →
  sortBy ≠ "engagement"%string → sortBy ≠ "platform"%string →
  getSortedFeed (Some sortBy) s = unifiedFeed s ∧
  getSortedFeed None s = getSortedFeed (Some "chronological") s.
Proof.
  intros H1 H2 H3 H4. split; [| done].
  unfold getSortedFeed. simpl.
  apply String.eqb_neq in H1, H2, H3, H4. by rewrite H1, H2, H3, H4.
Qed.

(** C8 on a feed of two posts and the policy ["newest"]. *)
Lemma C8_unknown_policy_unsorted_witness :
  getSortedFeed (Some "newest") (run (scrapeEvents 2) coldStart)
    = unifiedFeed (run (scrapeEvents 2) coldStart) ∧
  getSortedFeed None (run (scrapeEvents 2) coldStart)
    = getSortedFeed (Some "chronological") (run (scrapeEvents 2) coldStart).
Proof.
  apply (C8_unknown_policy_unsorted _ "newest"); done.
Defined.

(** C8 as the specification words it fails: under ["newest"] the older
    post comes first, under the chronological policy the newer one. *)
Lemma C8_unknown_policy_counterexample :
  id <$> getSortedFeed (Some "newest") (run (scrapeEvents 2) coldStart)
    = ["000"; "001"]%string ∧
  id <$> getSortedFeed (Some "chronological") (run (scrapeEvents 2) coldStart)
    = ["001"; "000"]%string ∧
  getSortedFeed (Some "newest") (run (scrapeEvents 2) coldStart)
    ≠ getSortedFeed (Some "chronological") (run (scrapeEvents 2) coldStart).
Proof. split_and!; done. Qed.

Lemma timeKey_nullish (a : Post) :
  timestamp a ≠ Some (TimeNumber 0) → numericTime a → timeKey a = nullishTimeOf a.
Proof.
  unfold timeKey, timeOf, nullishTimeOf, numericTime.
  destruct (timestamp a) as [[n|text]|]; try done. simpl.
  intros Hn _. destruct (Z.eqb_spec n 0); [congruence | done].
Qed.

(** C9, as the code has it.  The chronological view holds the records
    of the feed, each as often as the feed does, and answering
    [GET_FEED] leaves the worker, and so the feed, as it was.  The key
    of a record whose time stamp is a number or absent is
    [timestamp || scrapedAt]: the scrape time stands in when the time
    stamp is absent and also when it is zero.  On a feed whose time
    stamps are numbers or absent the view is the stable sort of the
    feed, descending, by that key: records of equal key keep the order
    they have in the feed; and on such a feed without a zero time stamp
    this is the order by [timestamp ?? scrapedAt].  (For a record whose
    time stamp is a text the subtraction in the comparator can be NaN,
    and the order is the engine's affair: nothing is stated for it.) *)
Theorem C9_chronological_view (s : State) (senderTab : option Z) :
  let sorted := getSortedFeed (Some "chronological") s in
  sorted ≡ₚ unifiedFeed s ∧
  onMessage (GET_FEED (Some "chronological")) senderTab s = (s, RFeed sorted) ∧
  (∀ a, numericTime a →
     timeOf a = TimeNumber (timeKey a) ∧
     timeKey a = match timestamp a with
                 | Some (TimeNumber t) => if decide (t = 0) then scrapedAt a else t
                 | _ => scrapedAt a
                 end) ∧
  ((∀ a, a ∈ unifiedFeed s → numericTime a) →
     StronglySorted (λ a b, timeKey b ≤ timeKey a) sorted ∧
     (∀ k, filter (λ a, timeKey a = k) sorted
           = filter (λ a, timeKey a = k) (unifiedFeed s)) ∧
     ((∀ a, a ∈ unifiedFeed s → timestamp a ≠ Some (TimeNumber 0)) →
        StronglySorted (λ a b, nullishTimeOf b ≤ nullishTimeOf a) sorted)).
Proof.
  change (getSortedFeed (Some "chronological"%string) s)
    with (js_sort byTimeDesc (unifiedFeed s)).
  pose proof (js_sort_perm byTimeDesc (unifiedFeed s)) as Hp.
  simpl. split_and!.
  - done.
  - done.
  - intros a Ha. unfold timeKey, timeOf, numericTime in *.
    destruct (timestamp a) as [[t|text]|]; try done. simpl.
    by destruct (Z.eqb_spec t 0), (decide (t = 0)).
  - intros Hnum. rewrite (js_sort_byTimeDesc _ Hnum) in *.
    pose proof (js_sort_sorted timeKey (λ a b, timeKey b - timeKey a)
                  (λ a b, eq_refl) (unifiedFeed s)) as Hs.
    split_and!.
    + done.
    + intros k. by apply (js_sort_stable timeKey).
    + intros Hnz. eapply StronglySorted_impl_elem; [| exact Hs].
      intros a b Ha Hb. unfold keyDesc. rewrite Hp in Ha, Hb.
      by rewrite !timeKey_nullish by (by apply Hnz || by apply Hnum).
Qed.

(** C9 on a feed of three posts, none with a zero time stamp. *)
Lemma C9_chronological_view_witness :
  StronglySorted (λ a b, nullishTimeOf b ≤ nullishTimeOf a)
    (getSortedFeed (Some "chronological") (run (scrapeEvents 3) coldStart)) ∧
  id <$> getSortedFeed (Some "chronological") (run (scrapeEvents 3) coldStart)
    = ["002"; "001"; "000"]%string.
Proof.
  assert (∀ a, a ∈ unifiedFeed (run (scrapeEvents 3) coldStart) →
            numericTime a ∧ timestamp a ≠ Some (TimeNumber 0)) as Hfeed.
  { intros a Ha. vm_compute in Ha.
    repeat (apply elem_of_cons in Ha as [->|Ha]; [done |]).
    by apply elem_of_nil in Ha. }
  destruct (C9_chronological_view (run (scrapeEvents 3) coldStart) None)
    as (_ & _ & _ & H).
  destruct H as (_ & _ & H); [intros a Ha; by apply Hfeed |].
  split; [| reflexivity]. apply H. intros a Ha. by apply Hfeed.
Defined.

(** C9 as the specification words it fails on a zero time stamp: the
    view puts the post stamped 0 (scraped at 100) before the post stamped
    50, which is not descending in [timestamp ?? scrapedAt]. *)
Lemma C9_zero_timestamp_counterexample :
  reachable epochState ∧
  id <$> getSortedFeed (Some "chronological") epochState = ["epoch"; "early"]%string ∧
  nullishTimeOf <$> getSortedFeed (Some "chronological") epochState = [0; 50] ∧
  ¬ StronglySorted (λ a b, nullishTimeOf b ≤ nullishTimeOf a)
      (getSortedFeed (Some "chronological") epochState).
Proof.
  split_and!; [by eexists | done | done |].
  assert (getSortedFeed (Some "chronological"%string) epochState
          = [setSourceTabId epochPost (Some 1); setSourceTabId earlyPost (Some 1)])
    as -> by reflexivity.
  intros H. inversion H as [|? ? _ Hall]; subst.
  inversion Hall as [|? ? Hle _]; subst. vm_compute in Hle. by apply Hle.
Qed.

(** ** Start-up *)

Lemma handleNewPost_loadPending (postData : Post) (tabId : option Z) (s : State) (b : bool) :
  handleNewPost postData tabId (setLoadPending b s)
  = setLoadPending b (handleNewPost postData tabId s).
Proof. unfold handleNewPost. simpl. by case_match. Qed.

(** C5, as the code has it.  Every start of the worker, the first one and
    each restart, begins with an empty feed and with the load of the
    persisted feed in flight.  The router does not wait for it: while the
    load is in flight a message is processed at once and exactly as it is
    processed afterwards.  When the load completes, once, the feed in
    memory becomes the persisted feed if there is one, whatever was
    ingested in between. *)
Theorem C5_load_started_not_awaited (s : State) (message : Message)
    (senderTab : option Z) :
  loadPending coldStart = true ∧
  (loadPending (step s EvRestart) = true ∧ unifiedFeed (step s EvRestart) = []) ∧
  onMessage message senderTab (setLoadPending true s)
    = (setLoadPending true (onMessage message senderTab s).1,
       (onMessage message senderTab s).2) ∧
  (loadPending s = true →
     loadPending (loadResolved s) = false ∧
     unifiedFeed (loadResolved s) = default (unifiedFeed s) (storage s) ∧
     loadResolved (loadResolved s) = loadResolved s).
Proof.
  split_and!; try done.
  - destruct message; simpl; try done.
    by rewrite handleNewPost_loadPending.
  - intros Hp. unfold loadResolved. rewrite Hp.
    destruct (storage s); simpl; done.
Qed.

(** C5 on [restarted]: the load, once resolved, brings the stored post. *)
Lemma C5_load_started_not_awaited_witness :
  loadPending (loadResolved restarted) = false ∧
  unifiedFeed (loadResolved restarted) = [setSourceTabId (samplePost 0) (Some 1)].
Proof.
  destruct (C5_load_started_not_awaited restarted OTHER None) as (_ & _ & _ & H).
  destruct H as (H1 & H2 & _); [reflexivity |].
  split; [exact H1 | rewrite H2; reflexivity].
Defined.

(** C5 as the specification words it fails: after a restart, with the
    load still in flight, [GET_FEED] is answered with the empty feed and
    a [NEW_POST] is ingested into it; when the load resolves, the
    persisted feed replaces the feed and the ingested post is gone. *)
Lemma C5_no_startup_barrier_counterexample :
  reachable restarted ∧
  loadPending restarted = true ∧
  storage restarted = Some [setSourceTabId (samplePost 0) (Some 1)] ∧
  (onMessage (GET_FEED None) None restarted).2 = RFeed [] ∧
  unifiedFeed (step restarted (EvMessage (NEW_POST (samplePost 1)) (Some 1)))
    = [setSourceTabId (samplePost 1) (Some 1)] ∧
  loadPending (step restarted (EvMessage (NEW_POST (samplePost 1)) (Some 1))) = true ∧
  unifiedFeed (run [EvMessage (NEW_POST (samplePost 1)) (Some 1); EvLoadResolved] restarted)
    = [setSourceTabId (samplePost 0) (Some 1)].
Proof. split_and!; [by eexists | done ..]. Qed.

(** ** More on the sort views *)

(** The sort on any comparator that is consistent: antisymmetric in
    sign and transitive. *)
Section SortByCmp.
Context {A : Type} (cmp : A → A → Z).

(** Two elements of a class that the comparator never asks to swap keep
    their order, whatever else the comparator does. *)
Lemma js_insert_class (P : A → Prop) `{!∀ a, Decision (P a)} (x : A) (l : list A) :
  (∀ a b, P a → P b → cmp a b ≤ 0) →
  filter P (js_insert cmp x l) = filter P (x :: l).
Proof.
  intros HP. induction l as [|y l IH]; simpl; [done |].
  destruct (Z.ltb_spec 0 (cmp x y)) as [Hlt|Hle]; [| done].
  rewrite (filter_cons P y), IH, !filter_cons.
  destruct (decide (P x)) as [Hx|Hx], (decide (P y)) as [Hy|Hy]; try done.
  specialize (HP x y Hx Hy). lia.
Qed.

Lemma js_sort_class (P : A → Prop) `{!∀ a, Decision (P a)} (l : list A) :
  (∀ a b, P a → P b → cmp a b ≤ 0) →
  filter P (js_sort cmp l) = filter P l.
Proof.
  intros HP. induction l as [|x l IH]; simpl; [done |].
  rewrite js_insert_class by done. by rewrite !filter_cons, IH.
Qed.

Hypothesis cmp_anti : ∀ a b, 0 < cmp a b → cmp b a < 0.
Hypothesis cmp_trans : ∀ a b c, cmp a b ≤ 0 → cmp b c ≤ 0 → cmp a c ≤ 0.

Lemma js_insert_cmp_sorted (x : A) (l : list A) :
  StronglySorted (cmpOrder cmp) l → StronglySorted (cmpOrder cmp) (js_insert cmp x l).
Proof.
  induction 1 as [|y l Hl IH Hy]; simpl.
  - repeat constructor.
  - destruct (Z.ltb_spec 0 (cmp x y)) as [Hlt|Hle].
    + constructor; [done |]. rewrite js_insert_perm.
      constructor; [| done]. unfold cmpOrder. apply cmp_anti in Hlt. lia.
    + constructor; [by constructor |]. constructor; [done |].
      eapply Forall_impl; [exact Hy |]. intros z Hz. by eapply cmp_trans.
Qed.

Lemma js_sort_cmp_sorted (l : list A) : StronglySorted (cmpOrder cmp) (js_sort cmp l).
Proof.
  induction l as [|x l IH]; simpl; [constructor |].
  by apply js_insert_cmp_sorted.
Qed.
End SortByCmp.

Lemma StronglySorted_sublist {A : Type} (R : A → A → Prop) (l1 l2 : list A) :
  l1 `sublist_of` l2 → StronglySorted R l2 → StronglySorted R l1.
Proof.
  intros Hsub Hs. revert l1 Hsub.
  induction Hs as [|x l2 Hl2 IH Hx]; intros l1 Hsub.
  - apply sublist_nil_r in Hsub as ->. constructor.
  - apply sublist_cons_r in Hsub as [Hsub|(l1' & -> & Hsub)]; [by apply IH |].
    constructor; [by apply IH |].
    rewrite Forall_forall in *. intros y Hy. apply Hx.
    by eapply elem_of_sublist.
Qed.

Lemma StronglySorted_reverse {A : Type} (R : A → A → Prop) (l : list A) :
  StronglySorted R l → StronglySorted (flip R) (reverse l).
Proof.
  induction 1 as [|x l Hl IH Hx]; [constructor |].
  rewrite reverse_cons. apply StronglySorted_app_2.
  - intros a b Ha Hb. apply list_elem_of_singleton in Hb as ->.
    rewrite elem_of_reverse in Ha. rewrite Forall_forall in Hx.
    unfold flip. by apply Hx.
  - done.
  - repeat constructor.
Qed.

(** In a list whose keys are all different the group of one key has at
    most one element, so it is the same in every arrangement. *)
Lemma filter_key_perm {A : Type} (key : A → Z) (k : Z) (l1 l2 : list A) :
  NoDup (key <$> l1) → l1 ≡ₚ l2 →
  filter (λ a, key a = k) l1 = filter (λ a, key a = k) l2.
Proof.
  intros Hnd Hp.
  assert (∀ l, NoDup (key <$> l) → (length (filter (λ a, key a = k) l) ≤ 1)%nat) as Hone.
  { clear. induction l as [|x l IH]; simpl; [lia |].
    intros Hnd. apply NoDup_cons in Hnd as [Hx Hnd]. rewrite filter_cons.
    destruct (decide (key x = k)) as [Hk|Hk]; [| by apply IH].
    simpl. assert (filter (λ a, key a = k) l = []) as ->; [| simpl; lia].
    destruct (filter (λ a, key a = k) l) as [|y r] eqn:E; [done |].
    assert (y ∈ filter (λ a, key a = k) l) as Hy by (rewrite E; left).
    apply list_elem_of_filter in Hy as [Hyk Hy]. exfalso. apply Hx.
    apply list_elem_of_fmap. exists y. split; [congruence | done]. }
  assert (filter (λ a, key a = k) l1 ≡ₚ filter (λ a, key a = k) l2) as Hf
    by by rewrite Hp.
  specialize (Hone l1 Hnd).
  destruct (filter (λ a, key a = k) l1) as [|x [|y r]]; simpl in Hone; [| | lia].
  - by apply Permutation_nil_l in Hf.
  - by apply Permutation_singleton_l in Hf.
Qed.

(** X1.  Whatever the policy, known, unknown or absent, the view holds
    the records of the feed, each as often as the feed does: sorting
    loses no post and invents none. *)
Theorem X1_view_is_permutation (s : State) (sortBy : option string) :
  getSortedFeed sortBy s ≡ₚ unifiedFeed s.
Proof.
  unfold getSortedFeed. repeat case_match; try done; apply js_sort_perm.
Qed.

(** X2.  On a feed whose time stamps are numbers (or absent), the
    oldest-first view is the stable sort of the feed, ascending, by
    [timestamp || scrapedAt]: records of equal key keep the order they
    have in the feed (they are not reversed). *)
Theorem X2_oldest_first_view (s : State) :
  (∀ a, a ∈ unifiedFeed s → numericTime a) →
  let sorted := getSortedFeed (Some "chronological-old") s in
  StronglySorted (λ a b, timeKey a ≤ timeKey b) sorted ∧
  ∀ k, filter (λ a, timeKey a = k) sorted = filter (λ a, timeKey a = k) (unifiedFeed s).
Proof.
  intros Hnum.
  change (getSortedFeed (Some "chronological-old"%string) s)
    with (js_sort byTimeAsc (unifiedFeed s)).
  rewrite (js_sort_byTimeAsc _ Hnum). simpl. split.
  - eapply StronglySorted_impl_elem;
      [| apply (js_sort_sorted (λ a, - timeKey a) _ (λ a b, eq_refl))].
    intros a b _ _. unfold keyDesc. lia.
  - intros k.
    rewrite (list_filter_iff (λ a, timeKey a = k) (λ a, - timeKey a = - k))
      by (intros; lia).
    rewrite (list_filter_iff (λ a, timeKey a = k) (λ a, - timeKey a = - k)
               (unifiedFeed s)) by (intros; lia).
    by apply (js_sort_stable (λ a, - timeKey a)).
Qed.

(** X2 on [mixedState]: the two posts of Twitter, scraped first, then
    the post of Bluesky, then the toot. *)
Lemma X2_oldest_first_view_witness :
  StronglySorted (λ a b, timeKey a ≤ timeKey b)
    (getSortedFeed (Some "chronological-old") mixedState) ∧
  id <$> getSortedFeed (Some "chronological-old") mixedState
    = ["000"; "001"; "at://post/1"; "111"]%string.
Proof.
  split; [| reflexivity].
  apply (X2_oldest_first_view mixedState).
  intros a Ha. vm_compute in Ha.
  repeat (apply elem_of_cons in Ha as [->|Ha]; [done |]).
  by apply elem_of_nil in Ha.
Defined.

(** X3.  On a feed whose time stamps are numbers (or absent) and in
    which no two records have the same key, the oldest-first view is
    the newest-first view read backwards. *)
Theorem X3_oldest_first_is_reverse (s : State) :
  (∀ a, a ∈ unifiedFeed s → numericTime a) →
  NoDup (timeKey <$> unifiedFeed s) →
  getSortedFeed (Some "chronological-old") s
  = reverse (getSortedFeed (Some "chronological") s).
Proof.
  intros Hnum Hnd.
  change (getSortedFeed (Some "chronological-old"%string) s)
    with (js_sort byTimeAsc (unifiedFeed s)).
  change (getSortedFeed (Some "chronological"%string) s)
    with (js_sort byTimeDesc (unifiedFeed s)).
  rewrite (js_sort_byTimeAsc _ Hnum), (js_sort_byTimeDesc _ Hnum).
  symmetry. apply (js_sort_unique (λ a, - timeKey a) _ (λ a b, eq_refl)).
  - eapply StronglySorted_impl_elem;
      [| apply StronglySorted_reverse,
           (js_sort_sorted timeKey _ (λ a b, eq_refl))].
    intros a b _ _. unfold keyDesc, flip. lia.
  - intros k.
    rewrite (list_filter_iff (λ a, - timeKey a = k) (λ a, timeKey a = - k))
      by (intros; lia).
    rewrite (list_filter_iff (λ a, - timeKey a = k) (λ a, timeKey a = - k)
               (unifiedFeed s)) by (intros; lia).
    symmetry. apply filter_key_perm; [done |].
    by rewrite reverse_Permutation, js_sort_perm.
Qed.

(** X3 on [mixedState], whose four posts have four different keys. *)
Lemma X3_oldest_first_is_reverse_witness :
  getSortedFeed (Some "chronological-old") mixedState
  = reverse (getSortedFeed (Some "chronological") mixedState).
Proof.
  apply X3_oldest_first_is_reverse.
  - intros a Ha. vm_compute in Ha.
    repeat (apply elem_of_cons in Ha as [->|Ha]; [done |]).
    by apply elem_of_nil in Ha.
  - vm_compute.
    repeat (apply NoDup_cons; split;
            [intros H; repeat (apply elem_of_cons in H as [H|H]; [done |]);
             by apply elem_of_nil in H |]).
    apply NoDup_nil_2.
Defined.

Lemma localeCompare_neg (a b : string) :
  localeCompare a b < 0 ↔ OrderedTypeEx.String_as_OT.lt a b.
Proof.
  rewrite <- OrderedTypeEx.String_as_OT.cmp_lt.
  unfold localeCompare, OrderedTypeEx.String_as_OT.cmp.
  destruct (String.compare a b); split; (done || lia).
Qed.

(** The comparator of the platform view, spelled out. *)
Lemma platformOrder_spec (a b : Post) :
  platformOrder a b ↔
  (platform a ≠ platform b ∧ localeCompare (platform a) (platform b) < 0) ∨
  (platform a = platform b ∧ timeKey b ≤ timeKey a).
Proof.
  unfold platformOrder, byPlatformKey.
  destruct (String.eqb_spec (platform a) (platform b)) as [Heq|Hne]; simpl.
  - split; [right; split; [done | lia] |]. intros [[Hne _]|[_ Ht]]; [done | lia].
  - split.
    + intros Hle. left. split; [done |].
      unfold localeCompare in *.
      destruct (String.compare (platform a) (platform b)) eqn:E; try lia.
      by apply String.compare_eq_iff in E.
    + intros [[_ Hlt]|[Heq _]]; [lia | done].
Qed.

Lemma byPlatformKey_anti (a b : Post) :
  0 < byPlatformKey a b → byPlatformKey b a < 0.
Proof.
  unfold byPlatformKey.
  rewrite (String.eqb_sym (platform b) (platform a)).
  destruct (String.eqb (platform a) (platform b)); simpl; [lia |].
  unfold localeCompare. rewrite (String.compare_antisym (platform b) (platform a)).
  destruct (String.compare (platform a) (platform b)); simpl; lia.
Qed.

Lemma byPlatformKey_trans (a b c : Post) :
  byPlatformKey a b ≤ 0 → byPlatformKey b c ≤ 0 → byPlatformKey a c ≤ 0.
Proof.
  intros Hab Hbc. apply platformOrder_spec in Hab, Hbc. apply platformOrder_spec.
  destruct Hab as [[Hne1 Hlt1]|[Heq1 Ht1]], Hbc as [[Hne2 Hlt2]|[Heq2 Ht2]].
  - left. apply localeCompare_neg in Hlt1, Hlt2.
    pose proof (OrderedTypeEx.String_as_OT.lt_trans _ _ _ Hlt1 Hlt2) as Hlt.
    split; [by apply OrderedTypeEx.String_as_OT.lt_not_eq |].
    by apply localeCompare_neg.
  - left. rewrite <- Heq2. done.
  - left. rewrite Heq1. done.
  - right. split; [congruence | lia].
Qed.

Lemma filter_none {A : Type} (P : A → Prop) `{!∀ a, Decision (P a)} (l : list A) :
  (∀ a, a ∈ l → ¬ P a) → filter P l = [] ∧ filter (λ a, ¬ P a) l = l.
Proof.
  induction l as [|x l IH]; intros Hall; [done |].
  destruct IH as [IH1 IH2]; [intros a Ha; apply Hall; by right |].
  assert (¬ P x) as Hx by (apply Hall; left).
  by rewrite filter_cons_False, filter_cons_True, IH1, IH2.
Qed.

Lemma filter_ext_in {A : Type} (P Q : A → Prop)
    `{!∀ a, Decision (P a), !∀ a, Decision (Q a)} (l : list A) :
  (∀ a, a ∈ l → (P a ↔ Q a)) → filter P l = filter Q l.
Proof.
  induction l as [|x l IH]; intros Hall; [done |].
  rewrite !filter_cons, IH by (intros a Ha; apply Hall; by right).
  assert (P x ↔ Q x) as Hx by (apply Hall; left).
  destruct (decide (P x)) as [Hp|Hp], (decide (Q x)) as [Hq|Hq]; tauto || done.
Qed.

(** A sorted list in which no element outside a class may stand before
    an element of the class starts with the class. *)
Lemma sorted_split {A : Type} (R : A → A → Prop) (P : A → Prop)
    `{!∀ a, Decision (P a)} (l : list A) :
  StronglySorted R l →
  (∀ a b, a ∈ l → b ∈ l → ¬ P a → P b → ¬ R a b) →
  l = filter P l ++ filter (λ a, ¬ P a) l.
Proof.
  intros Hs. induction Hs as [|x l Hl IH Hx]; intros Hout; [done |].
  rewrite Forall_forall in Hx.
  destruct (decide (P x)) as [Hp|Hp].
  - rewrite filter_cons_True by done.
    rewrite (filter_cons_False (λ a, ¬ P a)) by (intros Hn; by apply Hn).
    simpl. f_equal. apply IH. intros a b Ha Hb. apply Hout; by right.
  - destruct (filter_none P l) as [H1 H2].
    { intros b Hb Hpb. apply (Hout x b); [left | by right | done | done |].
      by apply Hx. }
    by rewrite filter_cons_False, filter_cons_True, H1, H2.
Qed.

(** X4.  On a feed whose platforms are twitter, bluesky and mastodon and
    whose time stamps are numbers (or absent), the platform view is the
    posts of bluesky, then those of mastodon, then those of twitter,
    each group arranged as the chronological sort arranges it, newest
    first. *)
Theorem X4_platform_view (s : State) :
  (∀ a, a ∈ unifiedFeed s → numericTime a ∧ knownPlatform (platform a)) →
  getSortedFeed (Some "platform") s
  = js_sort byTimeDesc (ofPlatform "bluesky" (unifiedFeed s))
    ++ js_sort byTimeDesc (ofPlatform "mastodon" (unifiedFeed s))
    ++ js_sort byTimeDesc (ofPlatform "twitter" (unifiedFeed s)).
Proof.
  intros Hfeed.
  assert (∀ a, a ∈ unifiedFeed s → numericTime a) as Hnum
    by (intros a Ha; by apply Hfeed).
  change (getSortedFeed (Some "platform"%string) s)
    with (js_sort byPlatform (unifiedFeed s)).
  rewrite (js_sort_byPlatform _ Hnum).
  set (sorted := js_sort byPlatformKey (unifiedFeed s)).
  assert (sorted ≡ₚ unifiedFeed s) as Hp by apply js_sort_perm.
  pose proof (js_sort_cmp_sorted byPlatformKey byPlatformKey_anti
                byPlatformKey_trans (unifiedFeed s)) as Hs.
  fold sorted in Hs. change (cmpOrder byPlatformKey) with platformOrder in Hs.
  assert (∀ p, ofPlatform p sorted = js_sort byTimeDesc (ofPlatform p (unifiedFeed s)))
    as Hgroup.
  { intros p. unfold ofPlatform. rewrite js_sort_byTimeDesc
      by (intros a Ha; apply list_elem_of_filter in Ha as [_ Ha]; by apply Hnum).
    apply (js_sort_unique timeKey _ (λ a b, eq_refl)).
    - eapply StronglySorted_impl_elem;
        [| eapply StronglySorted_sublist; [apply sublist_filter | exact Hs]].
      intros a b Ha Hb Hab.
      apply list_elem_of_filter in Ha as [Ha _], Hb as [Hb _].
      apply platformOrder_spec in Hab as [[Hne _]|[_ Ht]]; [congruence | done].
    - intros k. rewrite !list_filter_filter.
      apply js_sort_class. intros a b [Ha Hpa] [Hb Hpb].
      unfold byPlatformKey. rewrite Hpa, Hpb, String.eqb_refl. simpl. lia. }
  rewrite <- !Hgroup.
  assert (∀ a, a ∈ sorted → knownPlatform (platform a)) as Hknown
    by (intros a Ha; rewrite Hp in Ha; by apply Hfeed).
  rewrite (sorted_split platformOrder (λ a, platform a = "bluesky"%string) sorted Hs)
    at 1.
  2:{ intros a b Ha Hb Hna Hpb Hab. apply platformOrder_spec in Hab.
      rewrite Hpb in Hab.
      destruct (Hknown a Ha) as [E|[E|E]]; rewrite E in *;
        by destruct Hab as [[_ Hlt]|[Heq _]]. }
  f_equal.
  set (rest := filter (λ a, ¬ platform a = "bluesky"%string) sorted).
  assert (StronglySorted platformOrder rest) as Hrest
    by (eapply StronglySorted_sublist; [apply sublist_filter | exact Hs]).
  rewrite (sorted_split platformOrder (λ a, platform a = "mastodon"%string) rest Hrest).
  2:{ intros a b Ha Hb Hna Hpb Hab. apply platformOrder_spec in Hab.
      rewrite Hpb in Hab.
      apply list_elem_of_filter in Ha as [Hnb Ha].
      destruct (Hknown a Ha) as [E|[E|E]]; rewrite E in *;
        by destruct Hab as [[_ Hlt]|[Heq _]]. }
  unfold rest, ofPlatform. rewrite !list_filter_filter. f_equal.
  - apply list_filter_iff. intros a. split; [by intros [H _] |].
    intros H. split; [done |]. by rewrite H.
  - apply filter_ext_in. intros a Ha. split.
    + intros [Hnm Hnb]. by destruct (Hknown a Ha) as [E|[E|E]].
    + intros H. rewrite H. done.
Qed.

(** X4 on [mixedState]: Bluesky first, then Mastodon, then the two
    posts of Twitter, the later one first. *)
Lemma X4_platform_view_witness :
  getSortedFeed (Some "platform") mixedState
  = [setSourceTabId skeetPost (Some 3);
     setSourceTabId tootPost (Some 2);
     setSourceTabId (samplePost 1) (Some 1);
     setSourceTabId (samplePost 0) (Some 1)].
Proof.
  rewrite (X4_platform_view mixedState); [reflexivity |].
  intros a Ha. vm_compute in Ha.
  apply elem_of_cons in Ha as [->|Ha]; [split; [done | by left] |].
  apply elem_of_cons in Ha as [->|Ha]; [split; [done | by right; right] |].
  apply elem_of_cons in Ha as [->|Ha]; [split; [done | by right; left] |].
  apply elem_of_cons in Ha as [->|Ha]; [split; [done | by left] |].
  by apply elem_of_nil in Ha.
Defined.

(** ** More on the trim *)

Lemma js_sort_snoc_oldest {A : Type} (key : A → Z) (cmp : A → A → Z)
    (l : list A) (x : A) :
  (∀ a b, cmp a b = key b - key a) →
  (∀ a, a ∈ l → key x ≤ key a) →
  js_sort cmp (l ++ [x]) = js_sort cmp l ++ [x].
Proof.
  intros Hcmp Hold. symmetry. apply (js_sort_unique key cmp Hcmp).
  - apply StronglySorted_app_2.
    + intros a b Ha Hb. apply list_elem_of_singleton in Hb as ->.
      rewrite (js_sort_perm cmp l) in Ha. by apply Hold.
    + by apply js_sort_sorted.
    + repeat constructor.
  - intros k. by rewrite !filter_app, (js_sort_stable key cmp Hcmp).
Qed.

(** X5.  A post that was scraped later than at least one post of the
    feed is in the feed once it has been ingested: the trim never evicts
    the incoming post in favour of an older one. *)
Theorem X5_newer_post_is_kept (s : State) (postData q : Post) (tabId : option Z) :
  reachable s → q ∈ unifiedFeed s → scrapedAt q < scrapedAt postData →
  setSourceTabId postData tabId ∈ unifiedFeed (handleNewPost postData tabId s).
Proof.
  intros Hr Hq Hlt. pose proof (reachable_invariant s Hr) as [[Hlen Hnd] _].
  rewrite handleNewPost_feed.
  set (p := setSourceTabId postData tabId).
  destruct (decide (length (upsertFeed p (unifiedFeed s)) ≤ MAX_FEED_SIZE)%nat)
    as [Hfit|Hover].
  { rewrite trimFeed_small by done. apply upsertFeed_elem. }
  assert (upsertFeed p (unifiedFeed s) = unifiedFeed s ++ [p]) as Hpush.
  { unfold upsertFeed in *. case_match; [| done].
    rewrite length_insert in Hover. lia. }
  rewrite Hpush in *. rewrite length_app in Hover. simpl in Hover.
  destruct (trimFeed_evicts (unifiedFeed s ++ [p])) as (Hkept & dropped & Hperm & Hord).
  { rewrite length_app. simpl. lia. }
  assert (length dropped = 1%nat) as Hone.
  { apply Permutation_length in Hperm. rewrite !length_app in Hperm.
    simpl in Hperm. lia. }
  destruct dropped as [|d [|? ?]]; try done.
  assert (p ∈ trimFeed (unifiedFeed s ++ [p]) ++ [d]) as Hp
    by (rewrite <- Hperm; apply elem_of_app; right; left).
  assert (q ∈ trimFeed (unifiedFeed s ++ [p]) ++ [d]) as Hq'
    by (rewrite <- Hperm; apply elem_of_app; by left).
  apply elem_of_app in Hp as [Hp|Hp]; [done |].
  apply list_elem_of_singleton in Hp as <-.
  apply elem_of_app in Hq' as [Hq'|Hq'].
  - specialize (Hord q p Hq' ltac:(left)). simpl in Hord. lia.
  - apply list_elem_of_singleton in Hq' as ->. simpl in Hlt. lia.
Qed.

(** X5 on the full feed: post 500 is newer than all of it. *)
Lemma X5_newer_post_is_kept_witness :
  setSourceTabId (samplePost 500) (Some 2)
    ∈ unifiedFeed (handleNewPost (samplePost 500) (Some 2) fullState).
Proof.
  apply (X5_newer_post_is_kept fullState (samplePost 500)
           (setSourceTabId (samplePost 0) (Some 1))).
  - by exists (scrapeEvents MAX_FEED_SIZE).
  - vm_compute. left.
  - vm_compute. reflexivity.
Defined.

(** X6.  When the feed is full and a post with a new id arrives that was
    scraped no later than any post of the feed, [FEED_UPDATED] is sent
    for it but it is not stored: the feed afterwards holds the records
    it held, rearranged newest-scraped first. *)
Theorem X6_stale_post_announced_not_stored (s : State) (postData : Post)
    (tabId : option Z) :
  length (unifiedFeed s) = MAX_FEED_SIZE →
  id postData ∉ (id <$> unifiedFeed s) →
  (∀ q, q ∈ unifiedFeed s → scrapedAt postData ≤ scrapedAt q) →
  unifiedFeed (handleNewPost postData tabId s)
    = js_sort byScrapedAtDesc (unifiedFeed s) ∧
  (id postData ∉ (id <$> unifiedFeed (handleNewPost postData tabId s))) ∧
  outbox (handleNewPost postData tabId s)
    = outbox s ++ [FEED_UPDATED (setSourceTabId postData tabId)].
Proof.
  intros Hlen Hnew Hold.
  assert (unifiedFeed (handleNewPost postData tabId s)
          = js_sort byScrapedAtDesc (unifiedFeed s)) as Hfeed.
  { rewrite handleNewPost_append by done. unfold trimFeed.
    rewrite length_app, Hlen. simpl.
    rewrite (js_sort_snoc_oldest scrapedAt) by done.
    rewrite take_app_le by (rewrite (js_sort_length byScrapedAtDesc); lia).
    apply take_ge. rewrite (js_sort_length byScrapedAtDesc). lia. }
  split_and!; [done | | by apply handleNewPost_outbox_new].
  by rewrite Hfeed, (js_sort_perm byScrapedAtDesc).
Qed.

(** X6 on the full feed and the stale post. *)
Lemma X6_stale_post_announced_not_stored_witness :
  id stalePost
    ∉ (id <$> unifiedFeed (handleNewPost stalePost (Some 2) fullState)).
Proof.
  apply (X6_stale_post_announced_not_stored fullState stalePost (Some 2)).
  - vm_compute. reflexivity.
  - apply (bool_decide_unpack _). vm_compute. reflexivity.
  - apply Forall_forall. apply (bool_decide_unpack _). vm_compute. reflexivity.
Defined.

(** X7.  Whenever the upsert overflows the capacity, the feed that is
    left is in the order of the trim, newest-scraped first: the trim
    does not keep the positions the records had. *)
Theorem X7_trim_reorders (s : State) (postData : Post) (tabId : option Z) :
  (MAX_FEED_SIZE
     < length (upsertFeed (setSourceTabId postData tabId) (unifiedFeed s)))%nat →
  StronglySorted (λ a b, scrapedAt b ≤ scrapedAt a)
    (unifiedFeed (handleNewPost postData tabId s)).
Proof.
  intros Hover. rewrite handleNewPost_feed. unfold trimFeed.
  destruct (Nat.ltb_spec MAX_FEED_SIZE
              (length (upsertFeed (setSourceTabId postData tabId) (unifiedFeed s))));
    [| lia].
  eapply StronglySorted_sublist; [apply sublist_take |].
  apply (js_sort_sorted scrapedAt byScrapedAtDesc byScrapedAtDesc_key).
Qed.

(** X7 on the full feed: after post 500 the feed starts with it. *)
Lemma X7_trim_reorders_witness :
  StronglySorted (λ a b, scrapedAt b ≤ scrapedAt a)
    (unifiedFeed (handleNewPost (samplePost 500) (Some 2) fullState)).
Proof.
  apply X7_trim_reorders. vm_compute. lia.
Defined.

(** ** Persistence *)

Lemma run_app (events1 events2 : list Event) (s : State) :
  run (events1 ++ events2) s = run events2 (run events1 s).
Proof. unfold run. apply foldl_app. Qed.

Lemma ingest_storage (posts : list (Post * option Z)) (s : State) :
  storage (run (ingestEvents posts) s) = storage s.
Proof.
  revert s. induction posts as [|[p t] posts IH]; intros s; [done |].
  change (storage (run (ingestEvents posts) (handleNewPost p t s)) = storage s).
  rewrite IH. apply handleNewPost_storage.
Qed.

(** X8.  Once the debounce timer has fired, a restart of the worker
    followed by the start-up load brings back the feed exactly as it
    was, in the same order; the registry of tabs starts empty. *)
Theorem X8_save_restart_load_roundtrip (s : State) :
  saveTimeout s = true →
  unifiedFeed (run [EvSaveTimer; EvRestart; EvLoadResolved] s) = unifiedFeed s ∧
  monitoredTabs (run [EvSaveTimer; EvRestart; EvLoadResolved] s) = ∅.
Proof.
  intros Harmed. unfold run. simpl. unfold saveTimerFired. rewrite Harmed. done.
Qed.

(** X8 on the feed of two tabs. *)
Lemma X8_save_restart_load_roundtrip_witness :
  unifiedFeed (run [EvSaveTimer; EvRestart; EvLoadResolved] twoTabs)
  = unifiedFeed twoTabs.
Proof.
  apply (X8_save_restart_load_roundtrip twoTabs). reflexivity.
Defined.

(** X9.  Ingestion alone writes nothing to storage.  If the worker is
    restarted before the timer fires, the start-up load brings back the
    feed of the last write (the empty feed if there was none): what was
    ingested since is lost. *)
Theorem X9_unsaved_ingestions_lost (s : State) (posts : list (Post * option Z)) :
  storage (run (ingestEvents posts) s) = storage s ∧
  unifiedFeed (run (ingestEvents posts ++ [EvRestart; EvLoadResolved]) s)
    = default [] (storage s).
Proof.
  split; [apply ingest_storage |].
  rewrite run_app. unfold run at 1. simpl. unfold loadResolved. simpl.
  rewrite ingest_storage. by destruct (storage s).
Qed.

(** X11.  After a restart the registry is empty while the load restores
    the persisted posts.  Closing a tab then removes none of them,
    whichever tab it is: posts restored from storage outlive the tab
    that announced them until that tab is monitored again. *)
Theorem X11_restored_posts_outlive_their_tab (s : State) (tabId : Z) :
  unifiedFeed (hostRun [HRestart; HLoadResolved; HTabRemoved tabId] s)
    = default [] (storage s) ∧
  ∀ postData,
    monitoredTabs s !! tabId = None →
    unifiedFeed (unmonitorTab tabId (handleNewPost postData (Some tabId) s))
      = unifiedFeed (handleNewPost postData (Some tabId) s).
Proof.
  split.
  - unfold hostRun. simpl. unfold onRemoved, unmonitorTab, loadResolved. simpl.
    by destruct (storage s).
  - intros postData Hnone. unfold unmonitorTab.
    assert (monitoredTabs (handleNewPost postData (Some tabId) s) = monitoredTabs s)
      as -> by (unfold handleNewPost; by case_match).
    by rewrite Hnone.
Qed.

(** X11 on [restarted]: tab 1 announces a post and closes. *)
Lemma X11_restored_posts_outlive_their_tab_witness :
  unifiedFeed (unmonitorTab 1 (handleNewPost (samplePost 1) (Some 1) restarted))
  = [setSourceTabId (samplePost 1) (Some 1)].
Proof.
  destruct (X11_restored_posts_outlive_their_tab restarted 1) as [_ H].
  rewrite H; reflexivity.
Defined.

(** ** Classification of tabs *)

Lemma includes_head (s sub : string) :
  String.prefix sub s = true → includes s sub = true.
Proof. intros H. destruct s; cbn [includes]; by rewrite H. Qed.

Lemma includes_tail (c : Ascii.ascii) (s sub : string) :
  includes s sub = true → includes (String c s) sub = true.
Proof. intros H. cbn [includes]. rewrite H. apply orb_true_r. Qed.

Lemma stripPrefix_Some (p s r : string) :
  stripPrefix p s = Some r → s = (p +:+ r)%string.
Proof.
  revert s. induction p as [|a p IH]; intros s; cbn [stripPrefix].
  - by intros [= ->].
  - destruct s as [|b s]; [done |].
    destruct (Ascii.eqb_spec a b) as [->|]; [| done].
    intros H. by rewrite (IH _ H).
Qed.

Lemma includes_app_r (p r sub : string) :
  includes r sub = true → includes (p +:+ r)%string sub = true.
Proof. intros H. induction p as [|a p IH]; [done |]. by apply includes_tail. Qed.

(** One of two needles is in the haystack. *)
Lemma includes_either_mono (f : string → string) (s sub1 sub2 : string) :
  (∀ sub, includes s sub = true → includes (f s) sub = true) →
  includes s sub1 || includes s sub2 = true →
  includes (f s) sub1 || includes (f s) sub2 = true.
Proof.
  intros Hf H. apply orb_true_iff in H. apply orb_true_iff.
  destruct H as [H|H]; [left | right]; by apply Hf.
Qed.

Lemma hostThenTld_includes (seen : bool) (s : string) :
  hostThenTld seen s = true →
  includes s ".social" || includes s ".exchange" = true.
Proof.
  revert seen. induction s as [|c s IH]; intros seen.
  - by destruct seen.
  - cbn [hostThenTld]. intros H. apply orb_true_iff in H as [H|H].
    + apply andb_true_iff in H as [_ H]. apply orb_true_iff in H.
      apply orb_true_iff. destruct H as [H|H]; [left | right]; by apply includes_head.
    + destruct (Ascii.eqb c slash); [done |]. apply IH in H.
      apply (includes_either_mono (String c)); [| done].
      intros sub. apply includes_tail.
Qed.

Lemma socialHostAt_includes (s : string) :
  socialHostAt s = true →
  includes s ".social" || includes s ".exchange" = true.
Proof.
  unfold socialHostAt. destruct (stripPrefix "http" s) as [r|] eqn:Er; [| done].
  apply stripPrefix_Some in Er as ->. intros H.
  apply (includes_either_mono (λ r, "http" +:+ r)%string);
    [intros sub; apply includes_app_r |].
  apply orb_true_iff in H as [H|H].
  - destruct (stripPrefix "s://" r) as [h|] eqn:Eh; [| done].
    apply stripPrefix_Some in Eh as ->. apply hostThenTld_includes in H.
    apply (includes_either_mono (λ h, "s://" +:+ h)%string); [| done].
    intros sub. apply includes_app_r.
  - destruct (stripPrefix "://" r) as [h|] eqn:Eh; [| done].
    apply stripPrefix_Some in Eh as ->. apply hostThenTld_includes in H.
    apply (includes_either_mono (λ h, "://" +:+ h)%string); [| done].
    intros sub. apply includes_app_r.
Qed.

Lemma matchesSocialHost_includes (s : string) :
  matchesAnywhere socialHostAt s = true →
  includes s ".social" || includes s ".exchange" = true.
Proof.
  induction s as [|c s IH]; cbn [matchesAnywhere].
  - rewrite orb_false_r. apply socialHostAt_includes.
  - intros H. apply orb_true_iff in H as [H|H].
    + by apply socialHostAt_includes in H.
    + apply IH in H. apply (includes_either_mono (String c)); [| done].
      intros sub. apply includes_tail.
Qed.

Lemma isSocialMediaTab_knownPlatform (url : string) :
  isSocialMediaTab (Some url) = true → knownPlatform (getPlatform url).
Proof.
  unfold isSocialMediaTab, getPlatform, knownPlatform.
  destruct (String.eqb url ""); [done |].
  destruct (includes url "twitter.com"), (includes url "x.com"); simpl;
    try (intros _; by left).
  destruct (includes url "bsky.app"); simpl; [intros _; right; by left |].
  destruct (includes url "mastodon"), (includes url "fosstodon"),
    (includes url "hachyderm"); simpl; try (intros _; right; by right).
  destruct (matchesAnywhere socialHostAt url) eqn:E; simpl; [| done].
  apply matchesSocialHost_includes in E. rewrite E. intros _. right. by right.
Qed.

(** X12.  Every URL the classifier accepts is a URL of one of the three
    platforms for [getPlatform]: a tab that is monitored after the
    classifier accepted it is never recorded as ["unknown"]. *)
Theorem X12_accepted_url_has_platform (url : string) :
  isSocialMediaTab (Some url) = true → knownPlatform (getPlatform url).
Proof. apply isSocialMediaTab_knownPlatform. Qed.

(** X12 on the home page of an instance with the domain [.exchange]. *)
Lemma X12_accepted_url_has_platform_witness :
  knownPlatform (getPlatform "https://infosec.exchange/home").
Proof. apply X12_accepted_url_has_platform. reflexivity. Defined.

Lemma isSocialMediaTab_excluded (url : string) :
  includes url "/profile" || includes url "/status" || includes url "/post/" ||
  includes url "/trending/" || includes url "/search" = true →
  isSocialMediaTab (Some url) = false.
Proof.
  intros H. unfold isSocialMediaTab. rewrite H. by repeat case_match.
Qed.

(** ** The registry of tabs *)

Lemma unmonitorTab_tabs (tabId : Z) (s : State) :
  monitoredTabs (unmonitorTab tabId s) = delete tabId (monitoredTabs s).
Proof.
  unfold unmonitorTab. destruct (monitoredTabs s !! tabId) eqn:E; [done |].
  symmetry. by apply delete_id.
Qed.

(** X13.  Stopping the monitoring of a tab twice is the same as stopping
    it once; so the two [onRemoved] listeners together do what one
    does. *)
Theorem X13_unmonitor_twice (s : State) (tabId : Z) :
  unmonitorTab tabId (unmonitorTab tabId s) = unmonitorTab tabId s ∧
  onRemoved tabId s = unmonitorTab tabId s.
Proof.
  assert (unmonitorTab tabId (unmonitorTab tabId s) = unmonitorTab tabId s) as H.
  { unfold unmonitorTab at 1. rewrite unmonitorTab_tabs.
    by rewrite lookup_delete_eq. }
  done.
Qed.

Lemma handleNewPost_tabs (postData : Post) (tabId : option Z) (s : State) :
  monitoredTabs (handleNewPost postData tabId s) = monitoredTabs s.
Proof. unfold handleNewPost. by case_match. Qed.

Lemma onMessage_tabs (message : Message) (senderTab : option Z) (s : State) :
  monitoredTabs (onMessage message senderTab s).1 = monitoredTabs s.
Proof. destruct message; simpl; try done. apply handleNewPost_tabs. Qed.

Lemma registryOk_monitorTab (tab : Tab) (now : Z) (s : State) :
  registryOk s → registryOk (monitorTab tab now s).
Proof.
  intros Hok. unfold monitorTab.
  destruct (tab_id tab) as [i|]; [| done]. destruct (tab_url tab) as [u|]; [| done].
  destruct (Z.eqb_spec i 0); simpl; [done |].
  destruct (String.eqb_spec u ""); [done |].
  intros t info. simpl. rewrite lookup_insert.
  case_decide as Ht; [| by apply Hok]. intros [= <-]. by subst.
Qed.

Lemma registryOk_unmonitorTab (tabId : Z) (s : State) :
  registryOk s → registryOk (unmonitorTab tabId s).
Proof.
  intros Hok t info. rewrite unmonitorTab_tabs, lookup_delete.
  case_decide; [done | by apply Hok].
Qed.

Lemma registryOk_tabActivated (tabId now : Z) (s : State) :
  registryOk s → registryOk (tabActivated tabId now s).
Proof.
  intros Hok. unfold tabActivated.
  destruct (monitoredTabs s !! tabId) as [old|] eqn:E; [| done].
  intros t info. simpl. rewrite lookup_insert.
  case_decide as Ht; [| by apply Hok]. intros [= <-]. subst.
  by apply (Hok _ _ E).
Qed.

Lemma registryOk_step (s : State) (e : Event) : registryOk s → registryOk (step s e).
Proof.
  intros Hok. destruct e; simpl; try done.
  - intros t info. rewrite onMessage_tabs. apply Hok.
  - by apply registryOk_monitorTab.
  - by apply registryOk_unmonitorTab.
  - by apply registryOk_tabActivated.
  - unfold saveTimerFired. by case_match.
  - unfold loadResolved. by repeat case_match.
Qed.

Lemma reachable_registryOk (s : State) : reachable s → registryOk s.
Proof.
  intros [events ->].
  assert (∀ s, registryOk s → registryOk (run events s)) as H.
  { induction events as [|e events IH]; intros s Hs; [done |].
    apply IH. by apply registryOk_step. }
  apply H. intros t info. simpl. by rewrite lookup_empty.
Qed.

(** X14.  In every state the worker can reach, each monitored tab has an
    id other than 0 and a URL that is not empty, and the platform kept
    for it is the platform of that URL; focusing a tab changes neither. *)
Theorem X14_registry_well_formed (s : State) (tabId : Z) (info : TabInfo) :
  reachable s → monitoredTabs s !! tabId = Some info →
  tabId ≠ 0 ∧ info_url info ≠ ""%string ∧
  info_platform info = getPlatform (info_url info).
Proof. intros Hr Hinfo. by apply (reachable_registryOk s Hr). Qed.

(** X14 on [twoTabs], tab 2. *)
Lemma X14_registry_well_formed_witness :
  info_platform {| info_url := "https://bsky.app/"; info_platform := "bluesky";
                   lastUpdate := 11 |}
  = getPlatform "https://bsky.app/".
Proof.
  assert (reachable twoTabs) as Hr by (by eexists).
  destruct (X14_registry_well_formed twoTabs 2
              {| info_url := "https://bsky.app/"; info_platform := "bluesky";
                 lastUpdate := 11 |} Hr) as (_ & _ & H); [reflexivity | exact H].
Defined.

(** ** The listeners as a transition system *)

Lemma reachable_run (events : list Event) (s : State) :
  reachable s → reachable (run events s).
Proof.
  revert s. induction events as [|e events IH]; intros s Hr; [done |].
  apply IH. by apply reachable_step.
Qed.

Lemma scanExistingTabs_reachable (tabs : list (Tab * Z)) (s : State) :
  reachable s → reachable (scanExistingTabs tabs s).
Proof.
  revert s. induction tabs as [|[tab now] tabs IH]; intros s Hr; [done |].
  unfold scanExistingTabs. simpl. apply IH.
  case_match; [| done]. apply (reachable_step s (EvMonitor tab now) Hr).
Qed.

Lemma hostStep_reachable (s : State) (e : HostEvent) :
  reachable s → reachable (hostStep s e).
Proof.
  intros Hr. destruct e as [m t | tabId ci tab now | tabId | tab now | tabId now
                            | | tabs | | |]; simpl.
  - apply (reachable_step s (EvMessage m t) Hr).
  - unfold onUpdated. repeat case_match; try done.
    + apply (reachable_step s (EvMonitor tab now) Hr).
    + apply (reachable_step s (EvUnmonitor tabId) Hr).
  - apply (reachable_run [EvUnmonitor tabId; EvUnmonitor tabId] s Hr).
  - unfold onCreated. case_match; [| done].
    apply (reachable_step s (EvMonitor tab now) Hr).
  - apply (reachable_step s (EvActivated tabId now) Hr).
  - apply (reachable_step s EvInstalled Hr).
  - by apply scanExistingTabs_reachable.
  - apply (reachable_step s EvSaveTimer Hr).
  - apply (reachable_step s EvLoadResolved Hr).
  - apply (reachable_step s EvRestart Hr).
Qed.

Lemma hostRun_reachable (events : list HostEvent) :
  reachable (hostRun events coldStart).
Proof.
  assert (∀ s, reachable s → reachable (hostRun events s)) as H.
  { induction events as [|e events IH]; intros s Hs; [done |].
    apply IH. by apply hostStep_reachable. }
  apply H. by exists [].
Qed.

(** X15.  Whatever the listeners of the worker do, one after the other
    (the message router, the four tab listeners, the install hook and its
    scan of the open tabs, the save timer, the start-up load, a restart),
    the feed stays within 500 records and without a duplicate id. *)
Theorem X15_listeners_keep_feed_invariant (events : list HostEvent) :
  reachable (hostRun events coldStart) ∧
  (length (unifiedFeed (hostRun events coldStart)) ≤ MAX_FEED_SIZE)%nat ∧
  NoDup (id <$> unifiedFeed (hostRun events coldStart)).
Proof.
  pose proof (hostRun_reachable events) as Hr.
  split; [done |]. by destruct (reachable_invariant _ Hr) as [[Hlen Hnd] _].
Qed.

Lemma registryClassified_monitorTab (tab : Tab) (now : Z) (s : State) :
  isSocialMediaTab (tab_url tab) = true →
  registryClassified s → registryClassified (monitorTab tab now s).
Proof.
  intros Hacc Hok. unfold monitorTab.
  destruct (tab_id tab) as [i|]; [| done]. destruct (tab_url tab) as [u|]; [| done].
  case_match; [done |].
  intros t info. simpl. rewrite lookup_insert.
  case_decide as Ht; [| by apply Hok]. by intros [= <-].
Qed.

Lemma registryClassified_unmonitorTab (tabId : Z) (s : State) :
  registryClassified s → registryClassified (unmonitorTab tabId s).
Proof.
  intros Hok t info. rewrite unmonitorTab_tabs, lookup_delete.
  case_decide; [done | by apply Hok].
Qed.

Lemma registryClassified_scan (tabs : list (Tab * Z)) (s : State) :
  registryClassified s → registryClassified (scanExistingTabs tabs s).
Proof.
  revert s. induction tabs as [|[tab now] tabs IH]; intros s Hok; [done |].
  unfold scanExistingTabs. simpl. apply IH.
  destruct (isSocialMediaTab (tab_url tab)) eqn:E; [| done].
  by apply registryClassified_monitorTab.
Qed.

Lemma registryClassified_hostStep (s : State) (e : HostEvent) :
  registryClassified s → registryClassified (hostStep s e).
Proof.
  intros Hok. destruct e as [m t | tabId ci tab now | tabId | tab now | tabId now
                             | | tabs | | |]; simpl; try done.
  - intros t' info. rewrite onMessage_tabs. apply Hok.
  - unfold onUpdated.
    destruct (bool_decide _ && isSocialMediaTab (tab_url tab)) eqn:E.
    + apply andb_true_iff in E as [_ E]. by apply registryClassified_monitorTab.
    + repeat case_match; try done. by apply registryClassified_unmonitorTab.
  - unfold onRemoved. by do 2 apply registryClassified_unmonitorTab.
  - unfold onCreated. destruct (isSocialMediaTab (tab_url tab)) eqn:E; [| done].
    by apply registryClassified_monitorTab.
  - unfold tabActivated.
    destruct (monitoredTabs s !! tabId) as [old|] eqn:E; [| done].
    intros t info. simpl. rewrite lookup_insert.
    case_decide as Ht; [| by apply Hok]. intros [= <-]. simpl. by apply (Hok _ _ E).
  - by apply registryClassified_scan.
  - unfold saveTimerFired. by case_match.
  - unfold loadResolved. by repeat case_match.
Qed.

Lemma hostRun_classified (events : list HostEvent) :
  registryClassified (hostRun events coldStart).
Proof.
  assert (∀ s, registryClassified s → registryClassified (hostRun events s)) as H.
  { induction events as [|e evs IH]; intros s Hs; [done |].
    apply IH. by apply registryClassified_hostStep. }
  apply H. intros t i. simpl. by rewrite lookup_empty.
Qed.

(** X16.  Under the listeners every monitored tab has a URL that the
    classifier accepts, and the platform kept for it is twitter, bluesky
    or mastodon, never ["unknown"]. *)
Theorem X16_monitored_tabs_are_classified (events : list HostEvent)
    (tabId : Z) (info : TabInfo) :
  monitoredTabs (hostRun events coldStart) !! tabId = Some info →
  isSocialMediaTab (Some (info_url info)) = true ∧
  knownPlatform (info_platform info).
Proof.
  intros Hinfo. pose proof (hostRun_classified events tabId info Hinfo) as Hacc.
  destruct (reachable_registryOk _ (hostRun_reachable events) _ _ Hinfo)
    as (_ & _ & ->).
  split; [done | by apply isSocialMediaTab_knownPlatform].
Qed.

(** X16 on a tab created on the home page of X. *)
Lemma X16_monitored_tabs_are_classified_witness :
  isSocialMediaTab (Some "https://x.com/home") = true ∧ knownPlatform "twitter".
Proof.
  apply (X16_monitored_tabs_are_classified
           [HTabCreated (homeTab 1 "https://x.com/home") 10] 1
           {| info_url := "https://x.com/home"; info_platform := "twitter";
              lastUpdate := 10 |}).
  reflexivity.
Defined.

(** X17.  When a monitored tab reports a new URL that the classifier
    rejects (a status, profile, post, trending or search page, or a page
    of no platform), and the event is not the completion of a page the
    classifier accepts, the tab leaves the registry and every post it
    announced leaves the feed; the posts of other tabs stay. *)
Theorem X17_navigating_away_drops_posts (s : State) (tabId : Z)
    (changeInfo : ChangeInfo) (tab : Tab) (now : Z) (url : string) :
  ci_url changeInfo = Some url → url ≠ ""%string →
  isSocialMediaTab (Some url) = false →
  (ci_status changeInfo ≠ Some "complete"%string
   ∨ isSocialMediaTab (tab_url tab) = false) →
  is_Some (monitoredTabs s !! tabId) →
  unifiedFeed (onUpdated tabId changeInfo tab now s)
    = filter (λ post, sourceTabId post ≠ Some tabId) (unifiedFeed s) ∧
  monitoredTabs (onUpdated tabId changeInfo tab now s) !! tabId = None.
Proof.
  intros Hurl Hne Hrej Hnot [info Hinfo]. unfold onUpdated.
  assert (bool_decide (ci_status changeInfo = Some "complete"%string)
          && isSocialMediaTab (tab_url tab) = false) as ->.
  { destruct Hnot as [Hnot|Hnot].
    - by rewrite (bool_decide_eq_false_2 _ Hnot).
    - rewrite Hnot. apply andb_false_r. }
  rewrite Hurl, Hrej. apply String.eqb_neq in Hne. rewrite Hne. simpl.
  split.
  - unfold unmonitorTab. by rewrite Hinfo.
  - rewrite unmonitorTab_tabs. apply lookup_delete_eq.
Qed.

(** X17 on [twoTabs]: tab 1 opens a single post. *)
Lemma X17_navigating_away_drops_posts_witness :
  unifiedFeed (onUpdated 1 {| ci_status := Some "loading";
                              ci_url := Some "https://x.com/alice/status/42" |}
                 (homeTab 1 "https://x.com/alice/status/42") 20 twoTabs)
  = (λ k, setSourceTabId (samplePost k) (Some 2)) <$> seq 3 3.
Proof.
  destruct (X17_navigating_away_drops_posts twoTabs 1
              {| ci_status := Some "loading";
                 ci_url := Some "https://x.com/alice/status/42" |}
              (homeTab 1 "https://x.com/alice/status/42") 20
              "https://x.com/alice/status/42") as [H _];
    [reflexivity | done | reflexivity | by left | by eexists |].
  rewrite H. reflexivity.
Defined.

(** ** What was announced *)

Lemma announcedIds_app (log1 log2 : list Notification) :
  announcedIds (log1 ++ log2) = announcedIds log1 ++ announcedIds log2.
Proof. unfold announcedIds. apply omap_app. Qed.

Lemma allAnnounced_handleNewPost (postData : Post) (tabId : option Z) (s : State) :
  allAnnounced s → allAnnounced (handleNewPost postData tabId s).
Proof.
  intros [Hfeed Hstore].
  destruct (decide (id postData ∈ id <$> unifiedFeed s)) as [Hold|Hnew].
  - split.
    + intros p Hp. rewrite handleNewPost_outbox_known by done.
      rewrite handleNewPost_feed in Hp.
      apply trimFeed_elem, upsertFeed_elem_inv in Hp as [Hp| ->]; [by apply Hfeed |].
      apply list_elem_of_fmap in Hold as (q & Hq & Hin). simpl. rewrite Hq.
      by apply Hfeed.
    + intros feed p. rewrite handleNewPost_storage, handleNewPost_outbox_known by done.
      apply Hstore.
  - split.
    + intros p Hp. rewrite handleNewPost_outbox_new, announcedIds_app by done.
      rewrite handleNewPost_feed in Hp. apply elem_of_app.
      apply trimFeed_elem, upsertFeed_elem_inv in Hp as [Hp| ->];
        [left; by apply Hfeed | right; left].
    + intros feed p. rewrite handleNewPost_storage.
      rewrite handleNewPost_outbox_new, announcedIds_app by done.
      intros Hs Hp. apply elem_of_app. left. by eapply Hstore.
Qed.

Lemma allAnnounced_step (s : State) (e : Event) : allAnnounced s → allAnnounced (step s e).
Proof.
  intros Hok. pose proof Hok as [Hfeed Hstore].
  destruct e as [m t | tab now | tabId | tabId now | | | |]; simpl.
  - destruct m; simpl; try done.
    + by apply allAnnounced_handleNewPost.
    + split; simpl.
      * intros p Hp. by apply elem_of_nil in Hp.
      * intros feed p [= <-] Hp. by apply elem_of_nil in Hp.
  - unfold monitorTab. by repeat case_match.
  - unfold unmonitorTab. case_match; [| done]. split; simpl.
    + intros p Hp. apply list_elem_of_filter in Hp as [_ Hp]. by apply Hfeed.
    + done.
  - unfold tabActivated. by case_match.
  - split; simpl; [done |]. intros feed p [= <-] Hp. by apply elem_of_nil in Hp.
  - unfold saveTimerFired. case_match; [| done]. split; simpl; [done |].
    intros feed p [= <-]. apply Hfeed.
  - unfold loadResolved. case_match; [| done].
    destruct (storage s) as [feed|] eqn:E; split; simpl; try done.
    + intros p Hp. by eapply Hstore.
    + rewrite E. done.
    + by rewrite E.
  - split; simpl; [| done]. intros p Hp. by apply elem_of_nil in Hp.
Qed.

(** X18.  In every state the worker can reach, each record of the feed,
    in memory and in storage, has an id for which [FEED_UPDATED] was
    sent at some time: nothing enters the feed unannounced. *)
Theorem X18_every_stored_id_was_announced (s : State) (p : Post) :
  reachable s → p ∈ unifiedFeed s ∨ (∃ feed, storage s = Some feed ∧ p ∈ feed) →
  ∃ q, FEED_UPDATED q ∈ outbox s ∧ id q = id p.
Proof.
  intros [events ->] Hp.
  assert (allAnnounced (run events coldStart)) as [Hfeed Hstore].
  { assert (∀ s, allAnnounced s → allAnnounced (run events s)) as H.
    { clear. induction events as [|e events IH]; intros s Hs; [done |].
      apply IH. by apply allAnnounced_step. }
    apply H. split; simpl; [| done]. intros q Hq. by apply elem_of_nil in Hq. }
  assert (id p ∈ announcedIds (outbox (run events coldStart))) as Hid.
  { destruct Hp as [Hp|(feed & Hs & Hp)]; [by apply Hfeed | by eapply Hstore]. }
  unfold announcedIds in Hid. apply list_elem_of_omap in Hid as (n & Hn & Hid).
  destruct n as [q|]; [| done]. exists q. split; [done | congruence].
Qed.

(** X18 on [twoTabs] and its first post. *)
Lemma X18_every_stored_id_was_announced_witness :
  ∃ q, FEED_UPDATED q ∈ outbox twoTabs ∧ id q = "000"%string.
Proof.
  apply (X18_every_stored_id_was_announced twoTabs
           (setSourceTabId (samplePost 0) (Some 1))).
  - by eexists.
  - left. vm_compute. left.
Defined.

(** X19.  Clearing the feed writes the empty feed to storage at once,
    without the timer: a restart right after it loads the empty feed,
    and a timer that an earlier ingestion left armed writes the empty
    feed again.  The registry of tabs is not touched. *)
Theorem X19_clear_persists_at_once (s : State) (senderTab : option Z) :
  let cleared := (onMessage CLEAR_FEED senderTab s).1 in
  unifiedFeed cleared = [] ∧
  storage cleared = Some [] ∧
  outbox cleared = outbox s ++ [FEED_CLEARED] ∧
  monitoredTabs cleared = monitoredTabs s ∧
  unifiedFeed (run [EvRestart; EvLoadResolved] cleared) = [] ∧
  storage (step cleared EvSaveTimer) = Some [].
Proof.
  simpl. split_and!; try done.
  unfold saveTimerFired. simpl. by destruct (saveTimeout s).
Qed.

(** ** The parsers of the producers *)

Lemma firstAlternative_timeUnits (s unit : string) :
  firstAlternative timeUnits s = Some unit →
  unit ∈ ["s"; "m"; "h"; "d"; "w"; "y"]%string.
Proof.
  destruct s as [|c r]; [done |]. intros H.
  destruct r as [|c' r'];
    destruct c as [[] [] [] [] [] [] [] []]; vm_compute in H;
    try discriminate H; injection H as <-;
    repeat (first [by left | right]).
Qed.

Lemma relativeMatchAt_unit (s digits unit : string) :
  relativeMatchAt s = Some (digits, unit) →
  digits = (spanChars isDigit s).1 ∧ unit ∈ ["s"; "m"; "h"; "d"; "w"; "y"]%string.
Proof.
  unfold relativeMatchAt. destruct s as [|c r]; [done |].
  destruct (isDigit c); [| done].
  destruct (firstAlternative timeUnits _) as [u|] eqn:E; [| done].
  intros [= <- <-]. split; [done | by eapply firstAlternative_timeUnits].
Qed.

Lemma relativeMatch_unit (s digits unit : string) :
  relativeMatch s = Some (digits, unit) →
  (∃ s', digits = (spanChars isDigit s').1) ∧
  unit ∈ ["s"; "m"; "h"; "d"; "w"; "y"]%string.
Proof.
  induction s as [|c r IH]; cbn [relativeMatch].
  - destruct (relativeMatchAt "") as [m|] eqn:E; [| done].
    intros [= ->]. apply relativeMatchAt_unit in E as [-> Hu]. eauto.
  - destruct (relativeMatchAt (String c r)) as [m|] eqn:E; [| apply IH].
    intros [= ->]. apply relativeMatchAt_unit in E as [-> Hu]. eauto.
Qed.

Lemma spanChars_allDigits (s : string) : allDigits (spanChars isDigit s).1 = true.
Proof.
  induction s as [|c r IH]; [done |]. cbn [spanChars].
  destruct (isDigit c) eqn:E; [| done]. cbn [fst allDigits]. by rewrite E, IH.
Qed.

Lemma isDigit_value (c : Ascii.ascii) : isDigit c = true → 0 ≤ digitValue c ≤ 9.
Proof.
  unfold isDigit, digitValue. intros H. apply andb_true_iff in H as [H1 H2].
  apply Nat.leb_le in H1, H2. lia.
Qed.

Lemma parseDigits_nonneg (s : string) (acc : Z) :
  allDigits s = true → 0 ≤ acc → 0 ≤ parseDigits acc s.
Proof.
  revert acc. induction s as [|c r IH]; intros acc; cbn [allDigits parseDigits];
    [done |].
  intros H Hacc. apply andb_true_iff in H as [Hc Hr]. apply IH; [done |].
  apply isDigit_value in Hc. lia.
Qed.

Lemma unitMilliseconds_nonneg (unit : string) (value : Z) :
  0 ≤ value → 0 ≤ unitMilliseconds unit value.
Proof.
  intros Hv. unfold unitMilliseconds. destruct unit as [|c r]; [done |].
  repeat case_match; lia.
Qed.

(** X20.  When the text holds a number with a unit, the unit the pattern
    captures is a single letter, s, m, h, d, w or y: each longer
    alternative comes after its first letter in the pattern and is never
    the one taken.  So the branch of the months (unit ["mo"] or
    ["month"]) is never executed, and the result is now minus the
    number captured times the length of the unit captured: 1000 for s,
    60000 for m, 3600000 for h, 86400000 for d, 604800000 for w and
    31536000000 (365 days) for y. *)
Theorem X20_unit_is_one_letter (toLowerCase trim : string → string)
    (timeString digits unit : string) (now : Z) :
  timeString ≠ ""%string →
  relativeMatch (trim (toLowerCase timeString)) = Some (digits, unit) →
  unit ≠ "mo"%string ∧ unit ≠ "month"%string ∧
  0 ≤ parseDigits 0 digits ∧
  ((unit = "s"%string ∧
    parseRelativeTime toLowerCase trim (Some timeString) now
    = now - parseDigits 0 digits * 1000) ∨
   (unit = "m"%string ∧
    parseRelativeTime toLowerCase trim (Some timeString) now
    = now - parseDigits 0 digits * 60000) ∨
   (unit = "h"%string ∧
    parseRelativeTime toLowerCase trim (Some timeString) now
    = now - parseDigits 0 digits * 3600000) ∨
   (unit = "d"%string ∧
    parseRelativeTime toLowerCase trim (Some timeString) now
    = now - parseDigits 0 digits * 86400000) ∨
   (unit = "w"%string ∧
    parseRelativeTime toLowerCase trim (Some timeString) now
    = now - parseDigits 0 digits * 604800000) ∨
   (unit = "y"%string ∧
    parseRelativeTime toLowerCase trim (Some timeString) now
    = now - parseDigits 0 digits * 31536000000)).
Proof.
  intros Hne Hm. unfold parseRelativeTime.
  apply String.eqb_neq in Hne. rewrite Hne, Hm.
  apply relativeMatch_unit in Hm as [[s' ->] Hu].
  pose proof (parseDigits_nonneg _ 0 (spanChars_allDigits s') ltac:(done)) as Hv.
  set (value := parseDigits 0 (spanChars isDigit s').1) in *.
  split_and!; [| | done |].
  - intros ->. repeat (apply elem_of_cons in Hu as [Hu|Hu]; [done |]).
    by apply elem_of_nil in Hu.
  - intros ->. repeat (apply elem_of_cons in Hu as [Hu|Hu]; [done |]).
    by apply elem_of_nil in Hu.
  - apply elem_of_cons in Hu as [->|Hu]; [left; split; [done | cbn; lia] | right].
    apply elem_of_cons in Hu as [->|Hu]; [left; split; [done | cbn; lia] | right].
    apply elem_of_cons in Hu as [->|Hu]; [left; split; [done | cbn; lia] | right].
    apply elem_of_cons in Hu as [->|Hu]; [left; split; [done | cbn; lia] | right].
    apply elem_of_cons in Hu as [->|Hu]; [left; split; [done | cbn; lia] | ].
    apply elem_of_cons in Hu as [->|Hu]; [right; split; [done | cbn; lia] | ].
    by apply elem_of_nil in Hu.
Qed.

Lemma spanChars_digits_app (digits rest : string) :
  allDigits digits = true →
  (spanChars isDigit rest).1 = ""%string →
  spanChars isDigit (digits +:+ rest) = (digits, rest).
Proof.
  intros Hd Hrest. induction digits as [|c r IH].
  - change ("" +:+ rest)%string with rest.
    destruct rest as [|c r]; [done |]. cbn [spanChars] in *.
    destruct (isDigit c); [cbn [fst] in Hrest; discriminate Hrest | done].
  - cbn [allDigits] in Hd. apply andb_true_iff in Hd as [Hc Hr].
    change (String c r +:+ rest)%string with (String c (r +:+ rest))%string.
    cbn [spanChars]. rewrite Hc, (IH Hr). done.
Qed.

(** X21.  A time given in months is read as that many minutes: when the
    text, lower-cased and trimmed, is a number directly followed by
    ["mo"] (as in ["3mo"] or ["2months ago"]), the result is the number
    of minutes before now. *)
Theorem X21_months_read_as_minutes (toLowerCase trim : string → string)
    (timeString digits rest : string) (now : Z) :
  timeString ≠ ""%string → digits ≠ ""%string → allDigits digits = true →
  trim (toLowerCase timeString) = (digits +:+ "mo" +:+ rest)%string →
  parseRelativeTime toLowerCase trim (Some timeString) now
  = now - parseDigits 0 digits * 60000.
Proof.
  intros Hne Hd Hall Hlow. unfold parseRelativeTime.
  apply String.eqb_neq in Hne. rewrite Hne, Hlow.
  assert (relativeMatch (digits +:+ "mo" +:+ rest)%string = Some (digits, "m"%string))
    as ->.
  { destruct digits as [|c r]; [done |].
    pose proof Hall as Hall'. cbn [allDigits] in Hall'.
    apply andb_true_iff in Hall' as [Hc _].
    assert (relativeMatchAt (String c r +:+ "mo" +:+ rest)%string
            = Some (String c r, "m"%string)) as Hat.
    { change (String c r +:+ "mo" +:+ rest)%string
        with (String c (r +:+ "mo" +:+ rest))%string.
      unfold relativeMatchAt. rewrite Hc.
      change (String c (r +:+ "mo" +:+ rest))%string
        with (String c r +:+ ("mo" +:+ rest))%string.
      rewrite (spanChars_digits_app (String c r) ("mo" +:+ rest)) by done.
      cbn [fst snd].
      assert (skipSpaces ("mo" +:+ rest) = "mo" +:+ rest)%string as ->
        by (by destruct rest).
      done. }
    change (String c r +:+ "mo" +:+ rest)%string
      with (String c (r +:+ "mo" +:+ rest))%string in *.
    cbn [relativeMatch]. by rewrite Hat. }
  cbn. f_equal. ring.
Qed.

(** X21 on ["3mo"], with a host that leaves the text as it is. *)
Lemma X21_months_read_as_minutes_witness :
  parseRelativeTime (λ s, s) (λ s, s) (Some "3mo") 1000000 = 1000000 - 3 * 60000.
Proof.
  apply (X21_months_read_as_minutes (λ s, s) (λ s, s) "3mo" "3" ""); done.
Defined.

(** X22.  The parsed time is never in the future, and it is now when
    the text is missing, empty or holds no number with a unit. *)
Theorem X22_parsed_time_not_after_now (toLowerCase trim : string → string)
    (timeString : option string) (now : Z) :
  parseRelativeTime toLowerCase trim timeString now ≤ now ∧
  parseRelativeTime toLowerCase trim None now = now ∧
  parseRelativeTime toLowerCase trim (Some "") now = now ∧
  ∀ text, relativeMatch (trim (toLowerCase text)) = None →
    parseRelativeTime toLowerCase trim (Some text) now = now.
Proof.
  split_and!; try done.
  - unfold parseRelativeTime. destruct timeString as [text|]; [| done].
    destruct (String.eqb text ""); [done |].
    destruct (relativeMatch _) as [[digits unit]|] eqn:E; [| done].
    apply relativeMatch_unit in E as [[s' ->] _].
    pose proof (parseDigits_nonneg _ 0 (spanChars_allDigits s') ltac:(done)) as Hv.
    pose proof (unitMilliseconds_nonneg unit _ Hv). lia.
  - intros text H. unfold parseRelativeTime. rewrite H. by case_match.
Qed.

(** X22 on the text ["now"]. *)
Lemma X22_parsed_time_not_after_now_witness :
  parseRelativeTime (λ s, s) (λ s, s) (Some "now") 1000000 = 1000000.
Proof.
  destruct (X22_parsed_time_not_after_now (λ s, s) (λ s, s) None 1000000)
    as (_ & _ & _ & H).
  apply H. reflexivity.
Defined.

(** X20 on ["2 months ago"], with a host that leaves the text as it is:
    two minutes before now. *)
Lemma X20_unit_is_one_letter_witness :
  parseRelativeTime (λ s, s) (λ s, s) (Some "2 months ago") 1000000
  = 1000000 - 2 * 60000.
Proof.
  destruct (X20_unit_is_one_letter (λ s, s) (λ s, s) "2 months ago" "2" "m" 1000000)
    as (_ & _ & _ & H); [done | reflexivity |].
  destruct H as [[E _]|[[_ H]|[[E _]|[[E _]|[[E _]|[E _]]]]]];
    [discriminate E | exact H | discriminate E ..].
Defined.

Lemma spanChars_app (f : Ascii.ascii → bool) (run rest : string) :
  spanChars f run = (run, ""%string) →
  (spanChars f rest).1 = ""%string →
  spanChars f (run +:+ rest) = (run, rest).
Proof.
  intros Hrun Hrest. induction run as [|c r IH].
  - change ("" +:+ rest)%string with rest.
    destruct rest as [|c r]; [done |]. cbn [spanChars] in *.
    destruct (f c); [cbn [fst] in Hrest; discriminate Hrest | done].
  - change (String c r +:+ rest)%string with (String c (r +:+ rest))%string.
    cbn [spanChars] in *. destruct (f c); [| done].
    injection Hrun as Hr1 Hr2. rewrite IH; [done |].
    by rewrite (surjective_pairing (spanChars f r)), Hr1, Hr2.
Qed.

Lemma spanChars_whole (f g : Ascii.ascii → bool) (s : string) :
  (∀ c, f c = true → g c = true) →
  spanChars f s = (s, ""%string) → spanChars g s = (s, ""%string).
Proof.
  intros Hfg. induction s as [|c r IH]; [done |]. cbn [spanChars].
  destruct (f c) eqn:E; [| done]. rewrite (Hfg c E).
  intros [= Hr1 Hr2]. rewrite IH; [done |].
  by rewrite (surjective_pairing (spanChars f r)), Hr1, Hr2.
Qed.

Lemma allDigits_span (s : string) :
  allDigits s = true → spanChars isDigit s = (s, ""%string).
Proof.
  induction s as [|c r IH]; [done |]. cbn [allDigits spanChars].
  intros H. apply andb_true_iff in H as [Hc Hr]. by rewrite Hc, (IH Hr).
Qed.

Lemma removeCommas_digits (s : string) :
  allDigits s = true → removeCommas s = s.
Proof.
  induction s as [|c r IH]; [done |]. cbn [allDigits removeCommas].
  intros H. apply andb_true_iff in H as [Hc Hr]. rewrite (IH Hr).
  unfold isDigit in Hc. apply andb_true_iff in Hc as [Hc _].
  apply Nat.leb_le in Hc.
  by destruct (Nat.eqb_spec (Ascii.nat_of_ascii c) 44); [lia |].
Qed.

Lemma removeCommas_app (a b : string) :
  removeCommas (a +:+ b) = (removeCommas a +:+ removeCommas b)%string.
Proof.
  induction a as [|c r IH]; [done |].
  change (String c r +:+ b)%string with (String c (r +:+ b))%string.
  cbn [removeCommas]. rewrite IH. by case_match.
Qed.

Lemma removeCommas_span_allDigits (s : string) :
  allDigits (removeCommas (spanChars isDigitOrComma s).1) = true.
Proof.
  induction s as [|c r IH]; [done |]. cbn [spanChars].
  destruct (isDigitOrComma c) eqn:E; [| done]. cbn [fst removeCommas].
  destruct (Nat.eqb_spec (Ascii.nat_of_ascii c) 44) as [Hc|Hc]; [done |].
  cbn [allDigits]. rewrite IH, andb_true_r.
  unfold isDigitOrComma in E. apply orb_true_iff in E as [E|E]; [done |].
  by apply Nat.eqb_eq in E.
Qed.

Lemma parseDigits_acc (s : string) (acc : Z) :
  parseDigits acc s = acc * 10 ^ Z.of_nat (String.length s) + parseDigits 0 s.
Proof.
  revert acc. induction s as [|c r IH]; intros acc; cbn [parseDigits String.length].
  - simpl. lia.
  - rewrite (IH (10 * acc + digitValue c)), (IH (10 * 0 + digitValue c)).
    rewrite Nat2Z.inj_succ, Z.pow_succ_r by lia. ring.
Qed.

Lemma parseDigits_app (a b : string) (acc : Z) :
  parseDigits acc (a +:+ b) = parseDigits (parseDigits acc a) b.
Proof.
  revert acc. induction a as [|c r IH]; intros acc; [done |].
  change (String c r +:+ b)%string with (String c (r +:+ b))%string.
  cbn [parseDigits]. apply IH.
Qed.

(** X23.  The count read from a label is never negative, and it is 0
    when the label is missing, empty or does not start with a digit. *)
Theorem X23_count_is_natural (ariaLabel : option string) :
  0 ≤ extractCountFromAriaLabel ariaLabel ∧
  extractCountFromAriaLabel None = 0 ∧
  extractCountFromAriaLabel (Some "") = 0 ∧
  ∀ c r, isDigit c = false → extractCountFromAriaLabel (Some (String c r)) = 0.
Proof.
  split_and!; try done.
  - destruct ariaLabel as [[|c r]|]; try done. unfold extractCountFromAriaLabel.
    destruct (isDigit c); [| done].
    apply parseDigits_nonneg; [apply removeCommas_span_allDigits | done].
  - intros c r Hc. unfold extractCountFromAriaLabel. by rewrite Hc.
Qed.

(** X23 on a label that starts with a letter. *)
Lemma X23_count_is_natural_witness :
  extractCountFromAriaLabel (Some "Reply") = 0.
Proof.
  destruct (X23_count_is_natural None) as (_ & _ & _ & H).
  apply (H (Ascii.ascii_of_nat 82) "eply"%string). reflexivity.
Defined.

Lemma string_app_assoc (a b c : string) :
  ((a +:+ b) +:+ c = a +:+ (b +:+ c))%string.
Proof.
  induction a as [|x r IH]; [done |].
  change ((String x r +:+ b) +:+ c)%string with (String x ((r +:+ b) +:+ c))%string.
  by rewrite IH.
Qed.

Lemma spanChars_whole_app (f : Ascii.ascii → bool) (a b : string) :
  spanChars f a = (a, ""%string) → spanChars f b = (b, ""%string) →
  spanChars f (a +:+ b) = (a +:+ b, "")%string.
Proof.
  intros Ha Hb. induction a as [|c r IH]; [done |].
  change (String c r +:+ b)%string with (String c (r +:+ b))%string.
  cbn [spanChars] in *. destruct (f c); [| done].
  injection Ha as Hr1 Hr2. rewrite IH; [done |].
  by rewrite (surjective_pairing (spanChars f r)), Hr1, Hr2.
Qed.

(** X24.  A thousands separator is read through: for a label that
    starts with digits, a comma, digits again and then something that is
    neither, the count is the number the two runs of digits spell when
    joined. *)
Theorem X24_count_reads_through_comma (high low rest : string) :
  high ≠ ""%string → allDigits high = true → allDigits low = true →
  (spanChars isDigitOrComma rest).1 = ""%string →
  extractCountFromAriaLabel (Some (high +:+ "," +:+ low +:+ rest))
  = parseDigits 0 high * 10 ^ Z.of_nat (String.length low) + parseDigits 0 low.
Proof.
  intros Hne Hhigh Hlow Hrest.
  assert (∀ c, isDigit c = true → isDigitOrComma c = true) as Hsub
    by (intros c Hc; unfold isDigitOrComma; by rewrite Hc).
  assert (∀ ds, allDigits ds = true →
            spanChars isDigitOrComma ds = (ds, ""%string)) as Hwhole.
  { intros ds Hds. apply (spanChars_whole isDigit); [done | by apply allDigits_span]. }
  assert (spanChars isDigitOrComma (high +:+ "," +:+ low +:+ rest)
          = (high +:+ "," +:+ low, rest)%string) as Hrun.
  { replace (high +:+ "," +:+ low +:+ rest)%string
      with ((high +:+ "," +:+ low) +:+ rest)%string
      by (by rewrite !string_app_assoc).
    apply spanChars_app; [| done].
    apply spanChars_whole_app; [by apply Hwhole |].
    change ("," +:+ low)%string with (String (Ascii.ascii_of_nat 44) low).
    cbn [spanChars]. change (isDigitOrComma (Ascii.ascii_of_nat 44)) with true.
    cbv iota. by rewrite (Hwhole low Hlow). }
  destruct high as [|c r]; [done |].
  change (String c r +:+ "," +:+ low +:+ rest)%string
    with (String c (r +:+ "," +:+ low +:+ rest))%string in *.
  unfold extractCountFromAriaLabel.
  pose proof Hhigh as Hc. cbn [allDigits] in Hc. apply andb_true_iff in Hc as [Hc _].
  rewrite Hc, Hrun. cbn [fst].
  rewrite removeCommas_app, (removeCommas_digits _ Hhigh).
  change ("," +:+ low)%string with (String (Ascii.ascii_of_nat 44) low).
  cbn [removeCommas]. change (Ascii.nat_of_ascii (Ascii.ascii_of_nat 44) =? 44)%nat with true.
  cbv iota. rewrite (removeCommas_digits _ Hlow).
  rewrite parseDigits_app. apply parseDigits_acc.
Qed.

(** X24 on ["1,234 Likes. Like"]. *)
Lemma X24_count_reads_through_comma_witness :
  extractCountFromAriaLabel (Some "1,234 Likes. Like") = 1234.
Proof.
  apply (X24_count_reads_through_comma "1" "234" " Likes. Like"); done.
Defined.

(** ** The time label of the feed page *)

(** X25.  The label of a time stamp depends on its age alone: under a
    minute, and for any time stamp in the future, it is "just now"; then
    whole minutes from 1 to 59, whole hours from 1 to 23, whole days
    from 1 to 6; from seven days on it is the date. *)
Theorem X25_time_label_ranges (timestamp now : Z) :
  let age := now - timestamp in
  match formatTimestamp timestamp now with
  | JustNow => age < 60000
  | MinutesAgo m => 60000 ≤ age < 3600000 ∧ m = age / 60000 ∧ 1 ≤ m ≤ 59
  | HoursAgo h => 3600000 ≤ age < 86400000 ∧ h = age / 3600000 ∧ 1 ≤ h ≤ 23
  | DaysAgo d => 86400000 ≤ age < 604800000 ∧ d = age / 86400000 ∧ 1 ≤ d ≤ 6
  | LocaleDate date => 604800000 ≤ age ∧ date = timestamp
  end.
Proof.
  unfold formatTimestamp. cbv zeta.
  set (age := now - timestamp).
  destruct (Z.ltb_spec (age / 1000) 60);
    [| destruct (Z.ltb_spec (age / 1000 / 60) 60);
       [| destruct (Z.ltb_spec (age / 1000 / 60 / 60) 24);
          [| destruct (Z.ltb_spec (age / 1000 / 60 / 60 / 24) 7)]]];
    Z.div_mod_to_equations; lia.
Qed.
